(** * Orchestration of the specialist agents in [streamlit.py]

    A shallow embedding of [process_medical_report] (and of the guards of
    [main] in front of it) together with the properties of the fan-out /
    fan-in run: which workers are built and run, what is returned, and which
    progress values are reported.

    The agents of [utils.Agents] are external: an agent is the record of its
    constructor arguments, and what its [run()] does is a variable of the
    development.  The calls to the user interface ([st.progress],
    [st.warning], ...) are recorded as events, in the order of the calls. *)

From stdpp Require Import gmap strings list fin_maps sorting.
From Stdlib Require Import ZArith Lia.

Local Open Scope string_scope.
Local Open Scope list_scope.
Local Open Scope Z_scope.

(** ** Values and agents *)

(** A Python value that is either a text or [None]. *)
Abbreviation pytext := (option string).

(** The classes imported from [utils.Agents], with the arguments the
    constructors are called with. *)
Inductive Agent : Type :=
| Cardiologist (medical_report api_key : string)
| Psychologist (medical_report api_key : string)
| Pulmonologist (medical_report api_key : string)
| MultidisciplinaryTeam
    (cardiologist_report psychologist_report pulmonologist_report : pytext)
    (api_key : string).

(** What a call of [agent.run()] does: it returns a text or [None], or it
    raises an instance of [Exception] (with the text [str(e)]).  An agent
    that raises an exception of another class is outside this type; for
    such agents see [process_medical_report_any]. *)
Inductive run_result : Type :=
| Returns (response : pytext)
| Raises (message : string).

(** Python exceptions; [exn_str] is [str(e)].  [Exception] stands for any
    instance of [Exception] with its message, [KeyError] is the one a
    missing key raises, and [BaseException] stands for the exceptions that
    are no instances of [Exception] ([KeyboardInterrupt], [SystemExit]). *)
Inductive exn : Type :=
| Exception (message : string)
| KeyError (key : string)
| BaseException (message : string).

Definition exn_str (e : exn) : string :=
  match e with
  | Exception message => message
  | KeyError key => "'" +:+ key +:+ "'"
  | BaseException message => message
  end.

(** [isinstance(e, Exception)] *)
Definition is_Exception (e : exn) : bool :=
  match e with
  | BaseException _ => false
  | _ => true
  end.

(** ** Events: the calls made to the collaborators *)

Inductive event : Type :=
| ev_progress (value : Z)        (* st.progress(v), progress_bar.progress(v) *)
| ev_empty                       (* st.empty() *)
| ev_status (text : string)      (* status_text.text(...) *)
| ev_warning (text : string)     (* st.warning(...) *)
| ev_error (text : string)       (* st.error(...) *)
| ev_init (a : Agent)            (* a constructor of utils.Agents is called *)
| ev_run (a : Agent).            (* a.run() is called *)

Global Instance pytext_eq_dec : EqDecision pytext := _.
Global Instance run_result_eq_dec : EqDecision run_result.
Proof. solve_decision. Defined.
Global Instance Agent_eq_dec : EqDecision Agent.
Proof. solve_decision. Defined.
Global Instance event_eq_dec : EqDecision event.
Proof. solve_decision. Defined.

(** ** The monad of the embedding: a log of events and a result or an
    exception *)

Definition M (A : Type) : Type := list event * (exn + A).

Global Instance M_ret : MRet M := λ A x, ([], inr x).
Global Instance M_bind : MBind M := λ A B f m,
  match m with
  | (log, inl e) => (log, inl e)
  | (log, inr x) => let '(log', r) := f x in (log ++ log', r)
  end.

Definition emit (e : event) : M unit := ([e], inr tt).
Definition raise {A} (e : exn) : M A := ([], inl e).

(** [try: body except Exception as e: handler]: an exception that is no
    instance of [Exception] is not handled. *)
Definition try_except {A} (body : M A) (handler : exn → M A) : M A :=
  match body with
  | (log, inl e) =>
      if is_Exception e
      then let '(log', r) := handler e in (log ++ log', r)
      else (log, inl e)
  | (log, inr x) => (log, inr x)
  end.

Definition events {A} (m : M A) : list event := m.1.
Definition outcome {A} (m : M A) : exn + A := m.2.

(** ** Dictionaries *)

(** [agents] is iterated over, so it keeps Python's insertion order: an
    association list with distinct keys.  [dict_set] is [d[k] = v]. *)
Fixpoint dict_set {V} (k : string) (v : V) (d : list (string * V)) :
    list (string * V) :=
  match d with
  | [] => [(k, v)]
  | (k', v') :: d' =>
      if decide (k' = k) then (k', v) :: d' else (k', v') :: dict_set k v d'
  end.

Fixpoint dict_get {V} (k : string) (d : list (string * V)) : option V :=
  match d with
  | [] => None
  | (k', v) :: d' => if decide (k' = k) then Some v else dict_get k d'
  end.

(** [responses[key]] on the result mapping, a [gmap]: [KeyError] when the
    key is absent. *)
Definition getitem (responses : gmap string pytext) (key : string) :
    M pytext :=
  match responses !! key with
  | Some v => mret v
  | None => raise (KeyError key)
  end.

(** [None in responses.values()] *)
Definition None_in_values (responses : gmap string pytext) : bool :=
  bool_decide (None ∈ (map_to_list responses).*2).

(** ** The thread pool *)

(** A future holds what the submitted call returned, or the exception it
    raised; [future.result()] returns the one and raises the other. *)
Definition Future (A : Type) : Type := exn + A.

(** [executor.submit(fn, *args)]: the call is made in a worker thread, and
    an exception it raises stays in the future.  All calls are submitted
    before any result is read and the [with] block waits for every worker,
    so each submitted call is made whatever happens to the others; its
    events are logged here, at the submission.  (A worker's events may in
    fact fall anywhere before the end of the [with] block; the main thread's
    own events, the progress values among them, keep their order.) *)
Definition submit {A} (call : M A) : M (Future A) :=
  (events call, inr (outcome call)).

Definition future_result {A} (future : Future A) : M A := ([], future).

(** [as_completed(futures)] yields every future once, in an order the code
    does not control.  The order is read off an oracle [sched]: its k-th
    number selects, among the futures not yet yielded, the one yielded
    next. *)
Fixpoint yield_order {A} (n : nat) (sched : list nat) (pending : list A) :
    list A :=
  match n with
  | O => []
  | S n' =>
      let k := (hd 0 sched mod length pending)%nat in
      match pending !! k with
      | Some future => future :: yield_order n' (tl sched) (delete k pending)
      | None => []
      end
  end.

Definition as_completed {A B} (sched : list nat) (futures : list (A * B)) :
    list A :=
  yield_order (length futures) sched futures.*1.

(** ** [process_medical_report] *)

(** The value returned: [(responses, final_diagnosis)] or [(None, None)]. *)
Abbreviation retval := (option (gmap string pytext) * pytext)%type.

Definition warning_text (agent_name : string) : string :=
  "Warning: " +:+ agent_name +:+
  " failed to generate a response, likely due to API issues.".

Definition completed_text (agent_name : string) : string :=
  "Completed " +:+ agent_name +:+ " analysis...".

Definition agents_failed_text : string :=
  "Error: One or more agents failed to generate a response. " +:+
  "Check API key and quota.".

Definition team_failed_text : string :=
  "Error: MultidisciplinaryTeam failed to generate a final diagnosis.".

Definition processing_error_text (e : exn) : string :=
  "An error occurred during processing: " +:+ exn_str e.

Section Orchestration.
(** What [run()] does on each agent of [utils.Agents]. *)
Variable run : Agent → run_result.

Definition agent_run (agent : Agent) : M pytext :=
  emit (ev_run agent);;
  match run agent with
  | Returns response => mret response
  | Raises message => raise (Exception message)
  end.

(** A constructor call of [utils.Agents]: it stores its arguments. *)
Definition construct (agent : Agent) : M Agent :=
  emit (ev_init agent);; mret agent.

(** The dictionary display [{name: Class(...), ...}]: the values are
    built from left to right and stored under their keys. *)
Fixpoint dict_display (entries : list (string * Agent))
    (d : list (string * Agent)) : M (list (string * Agent)) :=
  match entries with
  | [] => mret d
  | (name, agent) :: rest =>
      agent ← construct agent;
      dict_display rest (dict_set name agent d)
  end.

Definition get_response (agent_name : string) (agent : Agent) :
    M (string * pytext) :=
  response ← agent_run agent;
  (if decide (response = None)
   then emit (ev_warning (warning_text agent_name)) else mret tt);;
  mret (agent_name, response).

(** [{executor.submit(get_response, name, agent): name
      for name, agent in agents.items()}] *)
Fixpoint submit_all (items : list (string * Agent)) :
    M (list (Future (string * pytext) * string)) :=
  match items with
  | [] => mret []
  | (name, agent) :: rest =>
      future ← submit (get_response name agent);
      futures ← submit_all rest;
      mret ((future, name) :: futures)
  end.

(** [for future in as_completed(futures): ...] *)
Fixpoint collect (order : list (Future (string * pytext)))
    (responses : gmap string pytext) (completed : Z) :
    M (gmap string pytext) :=
  match order with
  | [] => mret responses
  | future :: rest =>
      '(agent_name, response) ← future_result future;
      let responses := <[agent_name := response]> responses in
      let completed := completed + 1 in
      emit (ev_progress (20 + completed * 20));;
      emit (ev_status (completed_text agent_name));;
      collect rest responses completed
  end.

(** Lines 116-129: the agents are run and their responses collected.
    Leaving the [with ThreadPoolExecutor() as executor:] block, normally or
    by an exception, waits for the workers; their calls are all accounted
    for at the submission. *)
Definition consult (sched : list nat) (agents : list (string * Agent)) :
    M (gmap string pytext) :=
  emit (ev_status "Running specialist consultations...");;
  futures ← submit_all agents;
  collect (as_completed sched futures) ∅ 0.

(** Lines 131-156: the check of the responses and the team's diagnosis. *)
Definition conclude (responses : gmap string pytext) (api_key : string) :
    M retval :=
  if None_in_values responses then
    emit (ev_error agents_failed_text);;
    mret (None, None)
  else
    emit (ev_progress 80);;
    emit (ev_status "Generating multidisciplinary team analysis...");;
    cardiologist_report ← getitem responses "Cardiologist";
    psychologist_report ← getitem responses "Psychologist";
    pulmonologist_report ← getitem responses "Pulmonologist";
    team_agent ← construct (MultidisciplinaryTeam cardiologist_report
                              psychologist_report pulmonologist_report api_key);
    final_diagnosis ← agent_run team_agent;
    if decide (final_diagnosis = None) then
      emit (ev_error team_failed_text);;
      mret (None, None)
    else
      emit (ev_progress 100);;
      emit (ev_status "Analysis completed successfully!");;
      mret (Some responses, final_diagnosis).

(** Lines 158-160: the handler of [except Exception as e]. *)
Definition except_handler (e : exn) : M retval :=
  emit (ev_error (processing_error_text e));;
  mret (None, None).

(** The body of [process_medical_report], for the entries of the
    [agents] display. *)
Definition process_agents (entries : list (string * Agent))
    (api_key : string) (sched : list nat) : M retval :=
  emit (ev_progress 0);;
  emit ev_empty;;
  try_except
    (emit (ev_status "Initializing AI agents...");;
     emit (ev_progress 10);;
     agents ← dict_display entries [];
     emit (ev_progress 20);;
     responses ← consult sched agents;
     conclude responses api_key)
    except_handler.

Definition agent_entries (medical_report api_key : string) :
    list (string * Agent) :=
  [("Cardiologist", Cardiologist medical_report api_key);
   ("Psychologist", Psychologist medical_report api_key);
   ("Pulmonologist", Pulmonologist medical_report api_key)].

Definition process_medical_report (medical_report api_key : string)
    (sched : list nat) : M retval :=
  process_agents (agent_entries medical_report api_key) api_key sched.

End Orchestration.

(** ** What a log contains *)

Definition progress_values (log : list event) : list Z :=
  omap (λ e, match e with ev_progress v => Some v | _ => None end) log.

Definition runs (log : list event) : list Agent :=
  omap (λ e, match e with ev_run a => Some a | _ => None end) log.

Definition inits (log : list event) : list Agent :=
  omap (λ e, match e with ev_init a => Some a | _ => None end) log.

Definition warnings (log : list event) : list string :=
  omap (λ e, match e with ev_warning s => Some s | _ => None end) log.

Definition errors (log : list event) : list string :=
  omap (λ e, match e with ev_error s => Some s | _ => None end) log.

Definition is_team (a : Agent) : bool :=
  match a with MultidisciplinaryTeam _ _ _ _ => true | _ => false end.

(** The run ended in success: a mapping and a diagnosis are returned. *)
Definition is_success (r : exn + retval) : Prop :=
  ∃ responses final_diagnosis, r = inr (Some responses, Some final_diagnosis).

(** ** [process_medical_report] with agents that raise any exception

    With [run_result] the agents raise instances of [Exception] only.  The
    definitions below are the same code for agents whose [run()] may raise
    any exception, one that [except Exception] does not handle included;
    [process_medical_report] is their case [calls_of run]. *)

Section AnyException.
(** What [run()] gives on each agent: a text or [None], or the exception it
    raises. *)
Variable call : Agent → exn + pytext.

Definition agent_run_any (agent : Agent) : M pytext :=
  emit (ev_run agent);;
  match call agent with
  | inr response => mret response
  | inl e => raise e
  end.

Definition get_response_any (agent_name : string) (agent : Agent) :
    M (string * pytext) :=
  response ← agent_run_any agent;
  (if decide (response = None)
   then emit (ev_warning (warning_text agent_name)) else mret tt);;
  mret (agent_name, response).

Fixpoint submit_all_any (items : list (string * Agent)) :
    M (list (Future (string * pytext) * string)) :=
  match items with
  | [] => mret []
  | (name, agent) :: rest =>
      future ← submit (get_response_any name agent);
      futures ← submit_all_any rest;
      mret ((future, name) :: futures)
  end.

Definition consult_any (sched : list nat) (agents : list (string * Agent)) :
    M (gmap string pytext) :=
  emit (ev_status "Running specialist consultations...");;
  futures ← submit_all_any agents;
  collect (as_completed sched futures) ∅ 0.

Definition conclude_any (responses : gmap string pytext) (api_key : string) :
    M retval :=
  if None_in_values responses then
    emit (ev_error agents_failed_text);;
    mret (None, None)
  else
    emit (ev_progress 80);;
    emit (ev_status "Generating multidisciplinary team analysis...");;
    cardiologist_report ← getitem responses "Cardiologist";
    psychologist_report ← getitem responses "Psychologist";
    pulmonologist_report ← getitem responses "Pulmonologist";
    team_agent ← construct (MultidisciplinaryTeam cardiologist_report
                              psychologist_report pulmonologist_report api_key);
    final_diagnosis ← agent_run_any team_agent;
    if decide (final_diagnosis = None) then
      emit (ev_error team_failed_text);;
      mret (None, None)
    else
      emit (ev_progress 100);;
      emit (ev_status "Analysis completed successfully!");;
      mret (Some responses, final_diagnosis).

Definition process_medical_report_any (medical_report api_key : string)
    (sched : list nat) : M retval :=
  emit (ev_progress 0);;
  emit ev_empty;;
  try_except
    (emit (ev_status "Initializing AI agents...");;
     emit (ev_progress 10);;
     agents ← dict_display (agent_entries medical_report api_key) [];
     emit (ev_progress 20);;
     responses ← consult_any sched agents;
     conclude_any responses api_key)
    except_handler.

End AnyException.

(** The agents of [run_result] as agents that raise: their exceptions are
    instances of [Exception]. *)
Definition calls_of (run : Agent → run_result) (agent : Agent) :
    exn + pytext :=
  match run agent with
  | Returns response => inr response
  | Raises message => inl (Exception message)
  end.

(** The analyzers answer and the run of the team is interrupted
    ([KeyboardInterrupt] is no instance of [Exception]). *)
Definition call_interrupted (agent : Agent) : exn + pytext :=
  match agent with
  | Cardiologist _ _ => inr (Some "heart")
  | Psychologist _ _ => inr (Some "mind")
  | Pulmonologist _ _ => inr (Some "lungs")
  | MultidisciplinaryTeam _ _ _ _ =>
      inl (BaseException "KeyboardInterrupt")
  end.

(** An analyzer returns [None], one raises an [Exception], the team raises a
    [KeyError]: all instances of [Exception]. *)
Definition call_failing (agent : Agent) : exn + pytext :=
  match agent with
  | Cardiologist _ _ => inr (Some "heart")
  | Psychologist _ _ => inr None
  | Pulmonologist _ _ => inl (Exception "quota exceeded")
  | MultidisciplinaryTeam _ _ _ _ => inl (KeyError "model")
  end.

(** ** The guards of [main] in front of [process_medical_report]

    [main] is run once for every interaction with the page; the session
    state survives from one run to the next.  Only what decides whether and
    with which arguments [process_medical_report] is called is kept: the
    widgets are inputs, and the calls that only draw the page are left out
    and record no event: the warning of the sidebar in [load_api_key], the
    note [st.info] of a run without a key, the titles, the tabs and the
    download buttons.  The text of the uploaded file comes among the widgets
    here, already read; the reading itself, which can raise, is in
    [main_page].  The run ends with the session it leaves: [st.rerun()],
    which Streamlit implements by an exception of its own that the script
    runner takes, is the end of the run after a reset. *)

(** [st.session_state], with the three keys the script writes; [None] is an
    absent key. *)
Record session_state : Type := {
  ss_api_key : option string;          (* 'api_key' *)
  ss_analysis_started : option bool;   (* 'analysis_started' *)
  ss_medical_report : option string    (* 'medical_report' *)
}.

Definition empty_session : session_state :=
  {| ss_api_key := None; ss_analysis_started := None; ss_medical_report := None |}.

(** What the widgets and the environment give in one run of the script. *)
Record widgets : Type := {
  env_api_key : pytext;           (* os.getenv("GOOGLE_API_KEY") *)
  typed_api_key : string;         (* st.sidebar.text_input(...) *)
  medical_report_text : pytext;   (* the text decoded from the uploaded file,
                                     None without a (readable) file *)
  start_clicked : bool;           (* st.button("Start Analysis") *)
  again_clicked : bool            (* st.button("Analyze Another Report") *)
}.

(** Truth value of a text or [None]: [if text:]. *)
Definition truthy (text : pytext) : bool :=
  match text with
  | Some s => negb (bool_decide (s = ""))
  | None => false
  end.

Definition load_api_key (w : widgets) (ss : session_state) :
    session_state * pytext :=
  let api_key := env_api_key w in
  if negb (truthy api_key) then
    let api_key := typed_api_key w in
    if truthy (Some api_key) then
      ({| ss_api_key := Some api_key;
          ss_analysis_started := ss_analysis_started ss;
          ss_medical_report := ss_medical_report ss |}, Some api_key)
    else (ss, None)
  else
    ({| ss_api_key := api_key;
        ss_analysis_started := ss_analysis_started ss;
        ss_medical_report := ss_medical_report ss |}, api_key).

(** The loop that deletes the keys starting with 'analysis' and the key
    'medical_report'. *)
Definition reset_analysis (ss : session_state) : session_state :=
  {| ss_api_key := ss_api_key ss;
     ss_analysis_started := None;
     ss_medical_report := None |}.

Section Main.
Variable run : Agent → run_result.

Definition main (w : widgets) (sched : list nat) (ss : session_state) :
    M session_state :=
  let '(ss, api_key) := load_api_key w ss in
  match api_key with
  | None => mret ss
  | Some api_key =>
      if negb (truthy (Some api_key)) then mret ss else
      (* left column: the upload and the start button *)
      let ss :=
        if truthy (medical_report_text w) && start_clicked w then
          {| ss_api_key := ss_api_key ss;
             ss_analysis_started := Some true;
             ss_medical_report := medical_report_text w |}
        else ss in
      (* right column: the analysis *)
      match ss_analysis_started ss with
      | Some true =>
          medical_report ←
            match ss_medical_report ss with
            | Some text => mret text
            | None => raise (KeyError "medical_report")
            end;
          '(responses, final_diagnosis) ←
            process_medical_report run medical_report api_key sched;
          if bool_decide (responses ≠ None ∧ responses ≠ Some ∅)
             && truthy final_diagnosis then
            if again_clicked w then mret (reset_analysis ss) else mret ss
          else mret ss
      | _ => mret ss
      end
  end.

End Main.

(** The session states the script can be in: the empty one, and the ones
    left by a run of [main]. *)
Inductive reachable : session_state → Prop :=
| reachable_empty : reachable empty_session
| reachable_main (run : Agent → run_result) (w : widgets) (sched : list nat)
    (ss ss' : session_state) :
    reachable ss →
    outcome (main run w sched ss) = inr ss' →
    reachable ss'.

(** While an analysis is started, the session holds a non-empty report. *)
Definition session_ok (ss : session_state) : Prop :=
  ss_analysis_started ss = Some true →
  ∃ text, ss_medical_report ss = Some text ∧ text ≠ "".

(** ** What the workers and the loop leave behind

    The definitions below are used to state the properties; they are not
    part of the program. *)

(** The future of the call [get_response(name, agent)]. *)
Definition worker_future (run : Agent → run_result) (item : string * Agent) :
    Future (string * pytext) :=
  match run item.2 with
  | Returns response => inr (item.1, response)
  | Raises message => inl (Exception message)
  end.

(** The events of the call [get_response(name, agent)]. *)
Definition worker_log (run : Agent → run_result) (item : string * Agent) :
    list event :=
  ev_run item.2 ::
  match run item.2 with
  | Returns None => [ev_warning (warning_text item.1)]
  | _ => []
  end.

(** The results read by the loop before the first future that raises, and
    the exception of that future. *)
Fixpoint read_prefix {A} (order : list (Future A)) : list A * option exn :=
  match order with
  | [] => ([], None)
  | inr x :: rest => let '(xs, e) := read_prefix rest in (x :: xs, e)
  | inl e :: _ => ([], Some e)
  end.

(** The events of the loop for the results it read. *)
Fixpoint collect_log (results : list (string * pytext)) (completed : Z) :
    list event :=
  match results with
  | [] => []
  | (agent_name, _) :: rest =>
      ev_progress (20 + (completed + 1) * 20) ::
      ev_status (completed_text agent_name) ::
      collect_log rest (completed + 1)
  end.

(** The mapping after the loop stored the results it read. *)
Definition record (responses : gmap string pytext)
    (results : list (string * pytext)) : gmap string pytext :=
  foldl (λ m r, <[r.1 := r.2]> m) responses results.

(** The analyzers of a run and the ones that returned [None]. *)
Definition analyzers (medical_report api_key : string) : list Agent :=
  (agent_entries medical_report api_key).*2.

Definition failed (run : Agent → run_result) (entry : string * Agent) : bool :=
  bool_decide (run entry.2 = Returns None).

Definition failed_names (run : Agent → run_result)
    (medical_report api_key : string) : list string :=
  (filter (λ entry, failed run entry)
     (agent_entries medical_report api_key)).*1.

(** No analyzer raises. *)
Definition all_return (run : Agent → run_result)
    (medical_report api_key : string) : Prop :=
  ∀ a, a ∈ analyzers medical_report api_key →
    ∃ response, run a = Returns response.

(** Every analyzer returns a text. *)
Definition all_succeed (run : Agent → run_result)
    (medical_report api_key : string) : Prop :=
  ∀ a, a ∈ analyzers medical_report api_key →
    ∃ text, run a = Returns (Some text).

(** What an analyzer returned ([None] also stands for one that raised). *)
Definition response_of (run : Agent → run_result) (a : Agent) : pytext :=
  match run a with
  | Returns response => response
  | Raises _ => None
  end.

(** The results of the analyzers, in the order of [agents]. *)
Definition results_of (run : Agent → run_result)
    (items : list (string * Agent)) : list (string * pytext) :=
  (λ item, (item.1, response_of run item.2)) <$> items.

(** The futures of the submitted calls, with the names they are stored
    under, and what the loop reads of them. *)
Definition futures_of (run : Agent → run_result)
    (items : list (string * Agent)) :
    list (Future (string * pytext) * string) :=
  (λ item, (worker_future run item, item.1)) <$> items.

Definition read (run : Agent → run_result) (sched : list nat)
    (items : list (string * Agent)) : list (string * pytext) * option exn :=
  read_prefix (as_completed sched (futures_of run items)).

(** The events up to the submission of the workers. *)
Definition head_log (medical_report api_key : string) : list event :=
  [ev_progress 0; ev_empty; ev_status "Initializing AI agents...";
   ev_progress 10] ++
  (ev_init <$> analyzers medical_report api_key) ++
  [ev_progress 20; ev_status "Running specialist consultations..."].

(** The events of a run in which the loop read [results] and the events
    after the loop are [tail]. *)
Definition run_log (run : Agent → run_result) (medical_report api_key : string)
    (results : list (string * pytext)) (tail : list event) : list event :=
  head_log medical_report api_key ++
  (agent_entries medical_report api_key ≫= worker_log run) ++
  collect_log results 0 ++ tail.

(** What follows the loop: the handler if a future raised, the check and
    the team's diagnosis (under the [try]) otherwise. *)
Definition after_loop (run : Agent → run_result) (api_key : string)
    (rd : list (string * pytext) * option exn) : M retval :=
  match rd.2 with
  | Some e => except_handler e
  | None => try_except (conclude run (record ∅ rd.1) api_key) except_handler
  end.

(** The mapping every complete run of the loop ends with. *)
Definition responses_of (run : Agent → run_result)
    (medical_report api_key : string) : gmap string pytext :=
  list_to_map (results_of run (agent_entries medical_report api_key)).

(** The team built from three responses, its events and what is returned
    after it ran. *)
Definition team_log (run : Agent → run_result) (team : Agent) : list event :=
  [ev_progress 80; ev_status "Generating multidisciplinary team analysis...";
   ev_init team; ev_run team] ++
  match run team with
  | Returns (Some _) =>
      [ev_progress 100; ev_status "Analysis completed successfully!"]
  | Returns None => [ev_error team_failed_text]
  | Raises message => [ev_error (processing_error_text (Exception message))]
  end.

Definition team_ret (run : Agent → run_result) (team : Agent)
    (responses : gmap string pytext) : retval :=
  match run team with
  | Returns (Some final_diagnosis) => (Some responses, Some final_diagnosis)
  | _ => (None, None)
  end.

(** The three ways a run goes: [run_case run report key results tail ret]
    holds when the loop read [results], the events after the loop are [tail]
    and [ret] is returned. *)
Inductive run_case (run : Agent → run_result)
    (medical_report api_key : string) :
    list (string * pytext) → list event → retval → Prop :=
| case_raised (a : Agent) (message : string)
    (results : list (string * pytext)) :
    a ∈ analyzers medical_report api_key →
    run a = Raises message →
    (length results < 3)%nat →
    run_case run medical_report api_key results
      [ev_error (processing_error_text (Exception message))] (None, None)
| case_absent (a : Agent) (results : list (string * pytext)) :
    all_return run medical_report api_key →
    a ∈ analyzers medical_report api_key →
    run a = Returns None →
    results ≡ₚ results_of run (agent_entries medical_report api_key) →
    run_case run medical_report api_key results
      [ev_error agents_failed_text] (None, None)
| case_team (a b c : string) (results : list (string * pytext)) :
    run (Cardiologist medical_report api_key) = Returns (Some a) →
    run (Psychologist medical_report api_key) = Returns (Some b) →
    run (Pulmonologist medical_report api_key) = Returns (Some c) →
    results ≡ₚ results_of run (agent_entries medical_report api_key) →
    let team := MultidisciplinaryTeam (Some a) (Some b) (Some c) api_key in
    run_case run medical_report api_key results
      (team_log run team)
      (team_ret run team (responses_of run medical_report api_key)).

(** The value returned, read off what the agents do. *)
Definition expected_return (run : Agent → run_result)
    (medical_report api_key : string) : retval :=
  match run (Cardiologist medical_report api_key),
        run (Psychologist medical_report api_key),
        run (Pulmonologist medical_report api_key) with
  | Returns (Some a), Returns (Some b), Returns (Some c) =>
      team_ret run (MultidisciplinaryTeam (Some a) (Some b) (Some c) api_key)
        (responses_of run medical_report api_key)
  | _, _, _ => (None, None)
  end.

(** The events by which the run decides: the report that an analyzer
    failed, and the construction and the call of the team. *)
Definition is_decision (e : event) : bool :=
  match e with
  | ev_error text => bool_decide (text = agents_failed_text)
  | ev_init a | ev_run a => is_team a
  | _ => false
  end.


(** The body of the [try] block of [process_medical_report_any]. *)
Definition try_body (call : Agent → exn + pytext)
    (medical_report api_key : string) (sched : list nat) : M retval :=
  emit (ev_status "Initializing AI agents...");;
  emit (ev_progress 10);;
  agents ← dict_display (agent_entries medical_report api_key) [];
  emit (ev_progress 20);;
  responses ← consult_any call sched agents;
  conclude_any call responses api_key.
(** ** Concrete agents

    Behaviours of [run()] used to evaluate the program. *)

(** Every agent answers. *)
Definition run_ok (a : Agent) : run_result :=
  match a with
  | Cardiologist _ _ => Returns (Some "heart")
  | Psychologist _ _ => Returns (Some "mind")
  | Pulmonologist _ _ => Returns (Some "lungs")
  | MultidisciplinaryTeam _ _ _ _ => Returns (Some "verdict")
  end.

(** The analyzers answer, the team returns [None]. *)
Definition run_team_absent (a : Agent) : run_result :=
  match a with
  | MultidisciplinaryTeam _ _ _ _ => Returns None
  | _ => run_ok a
  end.

(** The cardiologist returns [None]. *)
Definition run_cardiologist_absent (a : Agent) : run_result :=
  match a with
  | Cardiologist _ _ => Returns None
  | _ => run_ok a
  end.

(** The pulmonologist returns [None]. *)
Definition run_pulmonologist_absent (a : Agent) : run_result :=
  match a with
  | Pulmonologist _ _ => Returns None
  | _ => run_ok a
  end.

(** The psychologist returns [None] and the pulmonologist raises. *)
Definition run_absent_and_raised (a : Agent) : run_result :=
  match a with
  | Psychologist _ _ => Returns None
  | Pulmonologist _ _ => Raises "quota exceeded"
  | _ => run_ok a
  end.
(** ** [extract_text_from_pdf]

    A text is a string of characters; which characters Python takes for
    white space ([str.isspace]) is a variable of the development. *)

(** The line feed, written [\n] in the source. *)
Definition newline : string := String (Ascii.ascii_of_nat 10) "".

(** The outcome of a call into a library: a value, or an exception that
    is raised. *)
Definition external {A} (r : exn + A) : M A := ([], r).

(** What PyPDF2 gives for an uploaded file: [PdfReader(...)] raises, or
    there are pages, and [page.extract_text()] gives a text or raises. *)
Abbreviation pdf := (exn + list (exn + string))%type.

(** An uploaded file: its MIME type, what [str(uploaded_file.read(),
    "utf-8")] gives (a text, or a decoding error) and what PyPDF2 gives. *)
Record upload : Type := {
  file_type : string;
  file_utf8 : exn + string;
  file_pdf : pdf
}.

Section Strip.
Variable isspace : Ascii.ascii → bool.

(** [s.lstrip()], [s.rstrip()] and [s.strip()] *)
Fixpoint lstrip (s : string) : string :=
  match s with
  | EmptyString => EmptyString
  | String c s' => if isspace c then lstrip s' else s
  end.

Fixpoint rstrip (s : string) : string :=
  match s with
  | EmptyString => EmptyString
  | String c s' =>
      match rstrip s' with
      | EmptyString => if isspace c then EmptyString else String c EmptyString
      | r => String c r
      end
  end.

Definition strip (s : string) : string := rstrip (lstrip s).

(** A text of white space only. *)
Fixpoint blank (s : string) : bool :=
  match s with
  | EmptyString => true
  | String c s' => isspace c && blank s'
  end.

(** [for page in pdf_reader.pages: text += page.extract_text() + "\n"] *)
Fixpoint extract_pages (pages : list (exn + string)) (text : string) :
    M string :=
  match pages with
  | [] => mret text
  | page :: rest =>
      page_text ← external page;
      extract_pages rest (text +:+ (page_text +:+ newline))
  end.

Definition reading_error_text (e : exn) : string :=
  "Error reading PDF file: " +:+ exn_str e.

Definition extract_text_from_pdf (pdf_file : pdf) : M pytext :=
  try_except
    (pages ← external pdf_file;
     text ← extract_pages pages "";
     mret (Some (strip text)))
    (λ e,
      emit (ev_error (reading_error_text e));;
      mret None).

(** ** The upload in [main] (lines 201-214) *)

Definition read_uploaded_file (uploaded_file : option upload) : M pytext :=
  match uploaded_file with
  | None => mret None
  | Some file =>
      if decide (file_type file = "text/plain") then
        text ← external (file_utf8 file);
        mret (Some text)
      else if decide (file_type file = "application/pdf") then
        extract_text_from_pdf (file_pdf file)
      else mret None
  end.

End Strip.

(** ** [main] with the upload

    The run of [main] with the file of the uploader in place of the text
    read from it: the field [medical_report_text] of the widgets is not
    used. *)

Section Page.
Variable run : Agent → run_result.
Variable isspace : Ascii.ascii → bool.

Definition main_page (uploaded_file : option upload) (w : widgets)
    (sched : list nat) (ss : session_state) : M session_state :=
  let '(ss, api_key) := load_api_key w ss in
  match api_key with
  | None => mret ss
  | Some api_key =>
      if negb (truthy (Some api_key)) then mret ss else
      (* left column: the upload and the start button *)
      medical_report_text ← read_uploaded_file isspace uploaded_file;
      let ss :=
        if truthy medical_report_text && start_clicked w then
          {| ss_api_key := ss_api_key ss;
             ss_analysis_started := Some true;
             ss_medical_report := medical_report_text |}
        else ss in
      (* right column: the analysis *)
      match ss_analysis_started ss with
      | Some true =>
          medical_report ←
            match ss_medical_report ss with
            | Some text => mret text
            | None => raise (KeyError "medical_report")
            end;
          '(responses, final_diagnosis) ←
            process_medical_report run medical_report api_key sched;
          if bool_decide (responses ≠ None ∧ responses ≠ Some ∅)
             && truthy final_diagnosis then
            if again_clicked w then mret (reset_analysis ss) else mret ss
          else mret ss
      | _ => mret ss
      end
  end.

End Page.

(** The widgets with the text read from the upload. *)
Definition with_text (w : widgets) (text : pytext) : widgets :=
  {| env_api_key := env_api_key w;
     typed_api_key := typed_api_key w;
     medical_report_text := text;
     start_clicked := start_clicked w;
     again_clicked := again_clicked w |}.

(** ** The reset of the session (lines 301-305)

    [st.session_state] as the dictionary it is, with values of any kind. *)

(** [key.startswith('analysis') or key == 'medical_report'] *)
Definition reset_key (key : string) : bool :=
  String.prefix "analysis" key || bool_decide (key = "medical_report").

(** [for key in list(st.session_state.keys()): if ...: del st.session_state[key]] *)
Definition reset_session {V} (session : gmap string V) : gmap string V :=
  foldl (λ d key, if reset_key key then delete key d else d)
    session (map_to_list session).*1.

(** The values the script stores in the session, and the session record as
    a dictionary. *)
Inductive session_value : Type :=
| text_value (s : string)
| bool_value (b : bool).

Definition session_dict (ss : session_state) : gmap string session_value :=
  list_to_map
    (omap id
       [(λ v, ("api_key", text_value v)) <$> ss_api_key ss;
        (λ v, ("analysis_started", bool_value v)) <$> ss_analysis_started ss;
        (λ v, ("medical_report", text_value v)) <$> ss_medical_report ss]).

(** ** What a run of [main] does, step by step (used to state and prove
    the properties of [main]) *)

(** The session after the left column: a click on the start button, offered
    when there is a text, stores the text. *)
Definition after_upload (w : widgets) (ss : session_state) : session_state :=
  if truthy (medical_report_text w) && start_clicked w then
    {| ss_api_key := ss_api_key ss;
       ss_analysis_started := Some true;
       ss_medical_report := medical_report_text w |}
  else ss.

(** [if responses and final_diagnosis:] on the value returned. *)
Definition shown (ret : retval) : bool :=
  bool_decide (ret.1 ≠ None ∧ ret.1 ≠ Some ∅) && truthy ret.2.

(** Sessions in which the two keys of an analysis are both absent, or both
    present with [True] and a non-empty report. *)
Definition session_inv (ss : session_state) : Prop :=
  (ss_analysis_started ss = None ∧ ss_medical_report ss = None) ∨
  (ss_analysis_started ss = Some true ∧
   ∃ text, ss_medical_report ss = Some text ∧ text ≠ "").

(** A session with a started analysis, and inputs with a key. *)
Definition started_session : session_state :=
  {| ss_api_key := Some "key";
     ss_analysis_started := Some true;
     ss_medical_report := Some "report" |}.

Definition idle_widgets : widgets :=
  {| env_api_key := Some "key"; typed_api_key := "";
     medical_report_text := None;
     start_clicked := false; again_clicked := false |}.

Definition again_widgets : widgets :=
  {| env_api_key := Some "key"; typed_api_key := "";
     medical_report_text := None;
     start_clicked := false; again_clicked := true |}.

Definition start_widgets : widgets :=
  {| env_api_key := None; typed_api_key := "typed";
     medical_report_text := Some "new report";
     start_clicked := true; again_clicked := false |}.

Definition no_key_widgets : widgets :=
  {| env_api_key := Some ""; typed_api_key := "";
     medical_report_text := Some "new report";
     start_clicked := true; again_clicked := true |}.

(** The team returns the empty text. *)
Definition run_empty_diagnosis (a : Agent) : run_result :=
  match a with
  | MultidisciplinaryTeam _ _ _ _ => Returns (Some "")
  | _ => run_ok a
  end.

(** The first exception raised while a PDF is read: by the reader, or by
    the first page that raises. *)
Fixpoint first_raised_page (pages : list (exn + string)) : option exn :=
  match pages with
  | [] => None
  | inl e :: _ => Some e
  | inr _ :: rest => first_raised_page rest
  end.

Definition first_raised (pdf_file : pdf) : option exn :=
  match pdf_file with
  | inl e => Some e
  | inr pages => first_raised_page pages
  end.

(** The white space of ASCII, as [str.isspace] has it: the characters 9 to
    13, 28 to 31 and the space. *)
Definition ascii_space (c : Ascii.ascii) : bool :=
  let n := Ascii.nat_of_ascii c in
  ((9 <=? n) && (n <=? 13) || (28 <=? n) && (n <=? 32))%nat.

(** A PDF of two pages, one of a scanned (blank) page and a page of white
    space, and one whose second page cannot be read. *)
Definition pdf_two_pages : pdf :=
  inr [inr "Patient: A."; inr "Heart rate 110"].

Definition pdf_blank : pdf := inr [inr ""; inr "  "].

Definition pdf_broken : pdf :=
  inr [inr "Patient: A."; inl (Exception "bad page")].

Definition pdf_interrupted : pdf :=
  inr [inr "Patient: A."; inl (BaseException "KeyboardInterrupt");
       inl (Exception "bad page")].

Definition upload_no_utf8 : upload :=
  {| file_type := "text/plain";
     file_utf8 := inl (Exception "invalid start byte");
     file_pdf := inl (Exception "EOF marker not found") |}.

Definition upload_broken_pdf : upload :=
  {| file_type := "application/pdf";
     file_utf8 := inl (Exception "invalid start byte");
     file_pdf := pdf_broken |}.

Definition upload_text : upload :=
  {| file_type := "text/plain";
     file_utf8 := inr "new report";
     file_pdf := inl (Exception "EOF marker not found") |}.

(** * Properties *)

(** ** The monad *)

Lemma bind_unfold {A B} (m : M A) (k : A → M B) :
  m ≫= k =
  match outcome m with
  | inl e => (events m, inl e)
  | inr x => (events m ++ events (k x), outcome (k x))
  end.
Proof.
  destruct m as [log [e|x]]; simpl; [done|].
  unfold events, outcome. by destruct (k x).
Qed.

Lemma try_except_unfold {A} (body : M A) (handler : exn → M A) :
  try_except body handler =
  match outcome body with
  | inl e =>
      if is_Exception e
      then (events body ++ events (handler e), outcome (handler e))
      else (events body, inl e)
  | inr x => (events body, inr x)
  end.
Proof.
  destruct body as [log [e|x]]; simpl; [|done].
  destruct (is_Exception e); [|done].
  unfold events, outcome. by destruct (handler e).
Qed.

Lemma emit_bind {A} (e : event) (k : M A) :
  (emit e;; k) = (e :: events k, outcome k).
Proof. unfold emit. simpl. by destruct k. Qed.

Lemma ret_bind {A B} (x : A) (k : A → M B) : mret x ≫= k = k x.
Proof. unfold mret, M_ret. simpl. by destruct (k x). Qed.

(** ** The order of completion *)

Lemma yield_order_perm {A} (n : nat) (sched : list nat) (pending : list A) :
  n = length pending → yield_order n sched pending ≡ₚ pending.
Proof.
  revert sched pending. induction n as [|n IH]; intros sched pending Hn.
  - by destruct pending.
  - simpl. destruct pending as [|x pending']; [done|].
    set (k := (hd 0 sched mod length (x :: pending'))%nat).
    assert (k < length (x :: pending'))%nat as Hk
      by (apply Nat.mod_upper_bound; simpl; lia).
    destruct (lookup_lt_is_Some_2 _ _ Hk) as [y Hy]. rewrite Hy.
    rewrite (delete_Permutation _ _ _ Hy) at 2. constructor.
    apply IH. rewrite length_delete by eauto. simpl in *. lia.
Qed.

Lemma as_completed_perm {A B} (sched : list nat) (futures : list (A * B)) :
  as_completed sched futures ≡ₚ futures.*1.
Proof. apply yield_order_perm. by rewrite length_fmap. Qed.

(** Every order of completion is the choice of some oracle. *)
Lemma yield_order_complete {A} (pending order : list A) :
  order ≡ₚ pending →
  ∃ sched, yield_order (length pending) sched pending = order.
Proof.
  revert pending. induction order as [|x order IH]; intros pending Hp.
  - apply Permutation_nil in Hp as ->. by exists [].
  - assert (x ∈ pending) as Hx by (rewrite <-Hp; left).
    apply list_elem_of_lookup in Hx as [k Hk].
    pose proof (lookup_lt_Some _ _ _ Hk) as Hlt.
    destruct (IH (delete k pending)) as [sched Hsched].
    { apply (Permutation_cons_inv (a:=x)).
      by rewrite Hp, <-(delete_Permutation _ _ _ Hk). }
    exists (k :: sched).
    destruct pending as [|y pending']; [done|].
    simpl in Hlt. cbn [length yield_order hd tl].
    rewrite Nat.mod_small by done. rewrite Hk.
    f_equal. rewrite <-Hsched. f_equal.
    rewrite length_delete by eauto. simpl. lia.
Qed.

(** ** The workers *)

Section Workers.
Variable run : Agent → run_result.

Lemma get_response_unfold (name : string) (agent : Agent) :
  get_response run name agent =
  (worker_log run (name, agent), worker_future run (name, agent)).
Proof.
  unfold get_response, agent_run, worker_log, worker_future. simpl.
  destruct (run agent) as [[text|]|message]; reflexivity.
Qed.

Lemma submit_all_unfold (items : list (string * Agent)) :
  submit_all run items =
  (items ≫= worker_log run,
   inr ((λ item, (worker_future run item, item.1)) <$> items)).
Proof.
  induction items as [|[name agent] items IH]; [done|].
  cbn [submit_all]. rewrite get_response_unfold, IH. unfold submit. simpl.
  by rewrite app_nil_r.
Qed.

Lemma collect_unfold (order : list (Future (string * pytext)))
    (responses : gmap string pytext) (completed : Z) :
  collect order responses completed =
  (collect_log (read_prefix order).1 completed,
   match (read_prefix order).2 with
   | Some e => inl e
   | None => inr (record responses (read_prefix order).1)
   end).
Proof.
  revert responses completed.
  induction order as [|[e|[name response]] order IH];
    intros responses completed; [done..|].
  cbn [collect read_prefix]. unfold future_result.
  rewrite bind_unfold. cbn [outcome events snd fst].
  rewrite !emit_bind, IH.
  destruct (read_prefix order) as [results e]. reflexivity.
Qed.

End Workers.

(** ** The results read by the loop *)

Lemma read_prefix_inr {A} (results : list A) :
  read_prefix (inr <$> results) = (results, None).
Proof.
  induction results as [|x results IH]; csimpl; [done|]. by rewrite IH.
Qed.

Lemma read_prefix_length {A} (order : list (Future A)) :
  (length (read_prefix order).1 ≤ length order)%nat.
Proof.
  induction order as [|[e|x] order IH]; simpl; [lia..|].
  destruct (read_prefix order). simpl in *. lia.
Qed.

Lemma read_prefix_inl {A} (order : list (Future A)) (e : exn) :
  inl e ∈ order →
  (∃ e', (read_prefix order).2 = Some e' ∧ inl e' ∈ order) ∧
  (length (read_prefix order).1 < length order)%nat.
Proof.
  induction order as [|[e'|x] order IH]; intros He.
  - by apply elem_of_nil in He.
  - simpl. split; [exists e'; split; [done|left] | lia].
  - apply elem_of_cons in He as [?|He]; [done|].
    destruct (IH He) as [(e' & He' & Hin) Hlen]. simpl.
    destruct (read_prefix order) as [results o]. simpl in *.
    split; [exists e'; split; [done|by right] | lia].
Qed.

Lemma read_prefix_None {A} (order : list (Future A)) :
  (read_prefix order).2 = None → order = inr <$> (read_prefix order).1.
Proof.
  induction order as [|[e|x] order IH]; simpl; [done..|].
  destruct (read_prefix order) as [results o]. simpl in *.
  intros ->. f_equal. by apply IH.
Qed.

Lemma progress_collect_log (results : list (string * pytext)) (completed : Z) :
  progress_values (collect_log results completed) =
  (λ i : nat, 20 + (completed + Z.of_nat i + 1) * 20) <$> seq 0 (length results).
Proof.
  revert completed.
  induction results as [|[name response] results IH]; intros completed; [done|].
  cbn [collect_log length seq]. rewrite <-fmap_S_seq. csimpl.
  rewrite <-list_fmap_compose. unfold progress_values in *. csimpl.
  rewrite IH. f_equal; [f_equal; lia|].
  apply list_fmap_ext. intros _ i _. simpl. f_equal. lia.
Qed.

Lemma collect_log_only_progress (results : list (string * pytext)) (completed : Z) :
  runs (collect_log results completed) = [] ∧
  inits (collect_log results completed) = [] ∧
  warnings (collect_log results completed) = [] ∧
  errors (collect_log results completed) = [].
Proof.
  revert completed.
  induction results as [|[name response] results IH]; intros completed; [done|].
  apply IH.
Qed.

(** ** The mapping of the responses *)

Lemma record_list_to_map (responses : gmap string pytext)
    (results : list (string * pytext)) :
  NoDup results.*1 → record responses results = list_to_map results ∪ responses.
Proof.
  unfold record. revert responses.
  induction results as [|[name response] results IH]; intros responses Hnd.
  - simpl. by rewrite (left_id_L ∅ (∪)).
  - apply NoDup_cons in Hnd as [Hname Hnd]. simpl. rewrite IH by done.
    rewrite <-insert_union_r by by apply not_elem_of_list_to_map_1.
    by rewrite insert_union_l.
Qed.

Lemma record_perm (results results' : list (string * pytext)) :
  NoDup results.*1 → results' ≡ₚ results →
  record ∅ results' = list_to_map results.
Proof.
  intros Hnd Hp. rewrite record_list_to_map by by rewrite Hp.
  rewrite (right_id_L ∅ (∪)). apply list_to_map_proper; [by rewrite Hp|done].
Qed.

Lemma None_in_values_true (responses : gmap string pytext) :
  None_in_values responses = true ↔ ∃ name, responses !! name = Some None.
Proof.
  unfold None_in_values. rewrite bool_decide_eq_true, list_elem_of_fmap.
  split.
  - intros ([name response] & Hr & Hin). simpl in Hr. subst response.
    exists name. by apply elem_of_map_to_list.
  - intros [name Hname]. exists (name, None). split; [done|].
    by apply elem_of_map_to_list.
Qed.

Lemma None_in_values_false (responses : gmap string pytext) :
  None_in_values responses = false ↔
  ∀ name response, responses !! name = Some response → response ≠ None.
Proof.
  rewrite <-not_true_iff_false, None_in_values_true. split.
  - intros Hno name response Hname ->. apply Hno. by exists name.
  - intros Hall [name Hname]. by apply (Hall _ _ Hname).
Qed.

(** ** The exceptions of a run

    The agents raise instances of [Exception], and so does a missing key:
    the handler of [process_medical_report] takes every exception of a
    run. *)

Lemma read_prefix_Some {A} (order : list (Future A)) (e : exn) :
  (read_prefix order).2 = Some e → inl e ∈ order.
Proof.
  induction order as [|[e'|x] order IH]; simpl; [done|by intros [= ->]; left|].
  destruct (read_prefix order) as [results o]. simpl in *.
  intros He. right. by apply IH.
Qed.

Lemma read_Exception (run : Agent → run_result) (sched : list nat)
    (items : list (string * Agent)) (e : exn) :
  (read run sched items).2 = Some e → ∃ message, e = Exception message.
Proof.
  intros He%read_prefix_Some. rewrite as_completed_perm in He.
  unfold futures_of in He. rewrite <-list_fmap_compose in He.
  apply list_elem_of_fmap in He as (item & Heq & _). simpl in Heq.
  unfold worker_future in Heq. destruct (run item.2); [done|].
  injection Heq as ->. by eexists.
Qed.

Lemma conclude_Exception (run : Agent → run_result)
    (responses : gmap string pytext) (api_key : string) (e : exn) :
  outcome (conclude run responses api_key) = inl e → is_Exception e = true.
Proof.
  unfold conclude, getitem, agent_run.
  destruct (None_in_values responses); [done|].
  destruct (responses !! "Cardiologist"); simpl; [|by intros [= <-]].
  destruct (responses !! "Psychologist"); simpl; [|by intros [= <-]].
  destruct (responses !! "Pulmonologist"); simpl; [|by intros [= <-]].
  destruct (run _) as [[?|]|?]; simpl; [done..|by intros [= <-]].
Qed.

(** ** The run, piece by piece *)

Section Run.
Variable run : Agent → run_result.

Lemma consult_unfold (sched : list nat) (agents : list (string * Agent)) :
  consult run sched agents =
  (ev_status "Running specialist consultations..." ::
     (agents ≫= worker_log run) ++ collect_log (read run sched agents).1 0,
   match (read run sched agents).2 with
   | Some e => inl e
   | None => inr (record ∅ (read run sched agents).1)
   end).
Proof.
  unfold consult. rewrite emit_bind, submit_all_unfold, bind_unfold.
  cbn [outcome events fst snd]. rewrite collect_unfold.
  fold (futures_of run agents). fold (read run sched agents).
  cbn [outcome events fst snd]. reflexivity.
Qed.

Lemma process_unfold (medical_report api_key : string) (sched : list nat) :
  let items := agent_entries medical_report api_key in
  let tail := after_loop run api_key (read run sched items) in
  process_medical_report run medical_report api_key sched =
  (head_log medical_report api_key ++ (items ≫= worker_log run) ++
     collect_log (read run sched items).1 0 ++ events tail,
   outcome tail).
Proof.
  intros items tail. unfold process_medical_report, process_agents.
  rewrite !emit_bind. cbn [events outcome fst snd].
  rewrite try_except_unfold. cbn [events outcome fst snd].
  change (dict_display (agent_entries medical_report api_key) [])
    with ((ev_init <$> analyzers medical_report api_key, inr items) : M _).
  rewrite bind_unfold. cbn [events outcome fst snd].
  rewrite emit_bind. cbn [events outcome fst snd].
  rewrite bind_unfold, consult_unfold. cbn [events outcome fst snd].
  subst tail. unfold after_loop. fold items.
  destruct (read run sched items) as [results [e|]] eqn:Hread; cbn [fst snd].
  - destruct (read_Exception run sched items e) as [message ->];
      [by rewrite Hread|].
    unfold head_log. simpl. rewrite <-!app_assoc. reflexivity.
  - rewrite try_except_unfold.
    destruct (outcome (conclude run (record ∅ results) api_key)) as [e|r]
      eqn:Hconclude.
    + pose proof (conclude_Exception _ _ _ _ Hconclude) as He.
      destruct e; [| |done];
        unfold head_log; simpl; rewrite <-?app_assoc; reflexivity.
    + unfold head_log; simpl; rewrite <-?app_assoc; reflexivity.
Qed.

End Run.

(** ** What the loop reads *)

Section Reading.
Variable run : Agent → run_result.

Lemma worker_future_returns (item : string * Agent) (response : pytext) :
  run item.2 = Returns response →
  worker_future run item = inr (item.1, response_of run item.2).
Proof. unfold worker_future, response_of. by intros ->. Qed.

Lemma futures_of_fst (items : list (string * Agent)) :
  (futures_of run items).*1 = worker_future run <$> items.
Proof. unfold futures_of. rewrite <-list_fmap_compose. done. Qed.

Lemma read_length (sched : list nat) (items : list (string * Agent)) :
  (length (read run sched items).1 ≤ length items)%nat.
Proof.
  unfold read. etrans; [apply read_prefix_length|].
  by rewrite as_completed_perm, futures_of_fst, length_fmap.
Qed.

Lemma read_all_return (sched : list nat) (items : list (string * Agent)) :
  (∀ item, item ∈ items → ∃ response, run item.2 = Returns response) →
  (read run sched items).2 = None ∧
  (read run sched items).1 ≡ₚ results_of run items.
Proof.
  intros Hall. unfold read.
  pose proof (as_completed_perm sched (futures_of run items)) as Hp.
  rewrite futures_of_fst in Hp.
  assert (worker_future run <$> items = inr <$> results_of run items) as Heq.
  { unfold results_of. rewrite <-list_fmap_compose.
    apply list_fmap_ext. intros _ item Hitem%list_elem_of_lookup_2.
    destruct (Hall _ Hitem) as [response Hr].
    by rewrite (worker_future_returns _ _ Hr). }
  rewrite Heq in Hp.
  apply Permutation_map_inv in Hp as (results & -> & Hp).
  rewrite read_prefix_inr. by split.
Qed.

Lemma read_raised (sched : list nat) (items : list (string * Agent))
    (item : string * Agent) (message : string) :
  item ∈ items → run item.2 = Raises message →
  (∃ item' message', item' ∈ items ∧ run item'.2 = Raises message' ∧
     (read run sched items).2 = Some (Exception message')) ∧
  (length (read run sched items).1 < length items)%nat.
Proof.
  intros Hitem Hrun. unfold read.
  pose proof (as_completed_perm sched (futures_of run items)) as Hp.
  rewrite futures_of_fst in Hp.
  assert (inl (Exception message) ∈ as_completed sched (futures_of run items))
    as Hin.
  { rewrite Hp. apply list_elem_of_fmap. exists item. split; [|done].
    unfold worker_future. by rewrite Hrun. }
  apply read_prefix_inl in Hin as [(e & He & Hin) Hlen]. split.
  - rewrite Hp in Hin. apply list_elem_of_fmap in Hin as (item' & Heq & Hitem').
    unfold worker_future in Heq.
    destruct (run item'.2) as [response|message'] eqn:Hrun'; [done|].
    exists item', message'. by simplify_eq.
  - apply Permutation_length in Hp. rewrite length_fmap in Hp. lia.
Qed.

End Reading.

(** ** After the loop *)

Section Conclusion.
Variable run : Agent → run_result.

Lemma responses_of_lookup (medical_report api_key : string) :
  let responses := responses_of run medical_report api_key in
  responses !! "Cardiologist" =
    Some (response_of run (Cardiologist medical_report api_key)) ∧
  responses !! "Psychologist" =
    Some (response_of run (Psychologist medical_report api_key)) ∧
  responses !! "Pulmonologist" =
    Some (response_of run (Pulmonologist medical_report api_key)) ∧
  dom responses = {["Cardiologist"; "Psychologist"; "Pulmonologist"]}.
Proof.
  unfold responses_of, results_of, agent_entries. simpl.
  split_and!; by simplify_map_eq.
Qed.

Lemma responses_of_lookup_Some (medical_report api_key name : string)
    (response : pytext) :
  responses_of run medical_report api_key !! name = Some response →
  ∃ a, (name, a) ∈ agent_entries medical_report api_key ∧
       response = response_of run a.
Proof.
  unfold responses_of. intros H%elem_of_list_to_map_2.
  unfold results_of in H. apply list_elem_of_fmap in H as ([name' a] & Heq & Hin).
  simplify_eq/=. by exists a.
Qed.

Lemma conclude_absent (responses : gmap string pytext) (api_key : string) :
  None_in_values responses = true →
  conclude run responses api_key =
  ([ev_error agents_failed_text], inr (None, None)).
Proof. unfold conclude. by intros ->. Qed.

Lemma conclude_team (responses : gmap string pytext) (api_key : string)
    (a b c : pytext) :
  None_in_values responses = false →
  responses !! "Cardiologist" = Some a →
  responses !! "Psychologist" = Some b →
  responses !! "Pulmonologist" = Some c →
  let team := MultidisciplinaryTeam a b c api_key in
  try_except (conclude run responses api_key) except_handler =
  (team_log run team, inr (team_ret run team responses)).
Proof.
  intros Hno Ha Hb Hc team. subst team.
  unfold conclude, getitem, team_log, team_ret.
  rewrite Hno, Ha, Hb, Hc. unfold agent_run. simpl.
  destruct (run (MultidisciplinaryTeam a b c api_key))
    as [[final_diagnosis|]|message]; reflexivity.
Qed.

End Conclusion.

(** ** The three ways a run goes *)

Lemma elem_of_analyzers (medical_report api_key : string) (a : Agent) :
  a ∈ analyzers medical_report api_key ↔
  a = Cardiologist medical_report api_key ∨
  a = Psychologist medical_report api_key ∨
  a = Pulmonologist medical_report api_key.
Proof.
  unfold analyzers, agent_entries. simpl.
  rewrite !elem_of_cons, elem_of_nil. tauto.
Qed.

Lemma entry_analyzer (medical_report api_key : string)
    (item : string * Agent) :
  item ∈ agent_entries medical_report api_key →
  item.2 ∈ analyzers medical_report api_key.
Proof. intros Hin. unfold analyzers. apply list_elem_of_fmap. by exists item. Qed.

Lemma agent_entries_NoDup (medical_report api_key : string) :
  NoDup (agent_entries medical_report api_key).*1.
Proof. unfold agent_entries. simpl. apply (bool_decide_unpack _). by vm_compute. Qed.

Section Cases.
Variable run : Agent → run_result.
Variables medical_report api_key : string.

Lemma analyzers_trichotomy :
  (∃ a message, a ∈ analyzers medical_report api_key ∧ run a = Raises message) ∨
  (all_return run medical_report api_key ∧
   ∃ a, a ∈ analyzers medical_report api_key ∧ run a = Returns None) ∨
  (∃ a b c,
     run (Cardiologist medical_report api_key) = Returns (Some a) ∧
     run (Psychologist medical_report api_key) = Returns (Some b) ∧
     run (Pulmonologist medical_report api_key) = Returns (Some c)).
Proof.
  pose proof (elem_of_analyzers medical_report api_key
                (Cardiologist medical_report api_key)) as [_ Hc1].
  pose proof (elem_of_analyzers medical_report api_key
                (Psychologist medical_report api_key)) as [_ Hc2].
  pose proof (elem_of_analyzers medical_report api_key
                (Pulmonologist medical_report api_key)) as [_ Hc3].
  destruct (run (Cardiologist medical_report api_key)) as [ra|ma] eqn:Ha;
    [|left; eexists _, _; split; [apply Hc1; tauto|exact Ha]].
  destruct (run (Psychologist medical_report api_key)) as [rb|mb] eqn:Hb;
    [|left; eexists _, _; split; [apply Hc2; tauto|exact Hb]].
  destruct (run (Pulmonologist medical_report api_key)) as [rc|mc] eqn:Hc;
    [|left; eexists _, _; split; [apply Hc3; tauto|exact Hc]].
  right.
  assert (all_return run medical_report api_key) as Hall.
  { intros a [->| [->| ->]]%elem_of_analyzers; eauto. }
  destruct ra as [a|];
    [|left; split; [done|]; eexists; split; [apply Hc1; tauto|exact Ha]].
  destruct rb as [b|];
    [|left; split; [done|]; eexists; split; [apply Hc2; tauto|exact Hb]].
  destruct rc as [c|];
    [|left; split; [done|]; eexists; split; [apply Hc3; tauto|exact Hc]].
  right. by exists a, b, c.
Qed.

Lemma read_complete (sched : list nat) :
  all_return run medical_report api_key →
  let rd := read run sched (agent_entries medical_report api_key) in
  rd.2 = None ∧
  rd.1 ≡ₚ results_of run (agent_entries medical_report api_key) ∧
  record ∅ rd.1 = responses_of run medical_report api_key.
Proof.
  intros Hall rd.
  destruct (read_all_return run sched (agent_entries medical_report api_key))
    as [Hnone Hp].
  { intros item Hitem. by apply Hall, entry_analyzer. }
  split_and!; [done..|]. apply record_perm; [|done].
  unfold results_of. rewrite <-list_fmap_compose. apply agent_entries_NoDup.
Qed.

Lemma process_cases (sched : list nat) :
  ∃ results tail ret,
    run_case run medical_report api_key results tail ret ∧
    process_medical_report run medical_report api_key sched =
    (run_log run medical_report api_key results tail, inr ret).
Proof.
  unfold run_log. rewrite process_unfold.
  set (rd := read run sched (agent_entries medical_report api_key)).
  destruct analyzers_trichotomy
    as [(a & message & Ha & Hrun) | [[Hall (a & Ha & Hrun)] | (a & b & c & Ha & Hb & Hc)]].
  - apply list_elem_of_fmap in Ha as (item & -> & Hitem).
    destruct (read_raised run sched _ _ _ Hitem Hrun)
      as [(item' & message' & Hitem' & Hrun' & Hrd) Hlen].
    fold rd in Hrd, Hlen. eexists rd.1, _, _. split.
    + by apply (case_raised _ _ _ item'.2 message'); [apply entry_analyzer|..].
    + unfold after_loop. rewrite Hrd. reflexivity.
  - destruct (read_complete sched Hall) as (Hnone & Hp & Hrec). fold rd in Hnone, Hp, Hrec.
    eexists rd.1, _, _. split; [by apply (case_absent _ _ _ a)|].
    unfold after_loop. rewrite Hnone, Hrec, conclude_absent; [done|].
    apply None_in_values_true.
    destruct (responses_of_lookup run medical_report api_key) as (H1 & H2 & H3 & _).
    apply elem_of_analyzers in Ha as [->| [->| ->]];
      [exists "Cardiologist" | exists "Psychologist" | exists "Pulmonologist"];
      unfold response_of in *; by rewrite Hrun in *.
  - assert (all_return run medical_report api_key) as Hall.
    { intros ? [->| [->| ->]]%elem_of_analyzers; eauto. }
    destruct (read_complete sched Hall) as (Hnone & Hp & Hrec). fold rd in Hnone, Hp, Hrec.
    eexists rd.1, _, _. split; [by apply (case_team _ _ _ a b c)|].
    unfold after_loop. rewrite Hnone, Hrec.
    destruct (responses_of_lookup run medical_report api_key) as (H1 & H2 & H3 & _).
    unfold response_of in *. rewrite Ha in H1. rewrite Hb in H2. rewrite Hc in H3.
    rewrite (conclude_team run _ api_key (Some a) (Some b) (Some c));
      [done| |done..].
    apply None_in_values_false. intros name response Hname.
    apply responses_of_lookup_Some in Hname as (agent & Hin%entry_analyzer & ->).
    simpl in Hin. unfold response_of.
    apply elem_of_analyzers in Hin as [->| [->| ->]];
      by rewrite ?Ha, ?Hb, ?Hc.
Qed.

End Cases.

(** ** What the pieces of a log contain *)

Lemma runs_app (l1 l2 : list event) : runs (l1 ++ l2) = runs l1 ++ runs l2.
Proof. apply omap_app. Qed.

Lemma inits_app (l1 l2 : list event) : inits (l1 ++ l2) = inits l1 ++ inits l2.
Proof. apply omap_app. Qed.

Lemma warnings_app (l1 l2 : list event) :
  warnings (l1 ++ l2) = warnings l1 ++ warnings l2.
Proof. apply omap_app. Qed.

Lemma errors_app (l1 l2 : list event) :
  errors (l1 ++ l2) = errors l1 ++ errors l2.
Proof. apply omap_app. Qed.

Lemma progress_values_app (l1 l2 : list event) :
  progress_values (l1 ++ l2) = progress_values l1 ++ progress_values l2.
Proof. apply omap_app. Qed.

Section Pieces.
Variable run : Agent → run_result.

Lemma workers_runs (items : list (string * Agent)) :
  runs (items ≫= worker_log run) = items.*2.
Proof.
  induction items as [|[name a] items IH]; [done|]. csimpl.
  rewrite runs_app, IH. unfold worker_log. simpl.
  by destruct (run a) as [[?|]|?].
Qed.

Lemma workers_warnings (items : list (string * Agent)) :
  warnings (items ≫= worker_log run) =
  warning_text <$> (filter (λ entry, failed run entry) items).*1.
Proof.
  induction items as [|[name a] items IH]; [done|]. csimpl.
  rewrite warnings_app, IH. unfold worker_log.
  rewrite filter_cons.
  destruct (decide (failed run (name, a))) as [Hf|Hf]; unfold failed in Hf;
    simpl in *.
  - apply bool_decide_unpack in Hf. by rewrite Hf.
  - by destruct (run a) as [[?|]|?].
Qed.

Lemma workers_silent (items : list (string * Agent)) :
  progress_values (items ≫= worker_log run) = [] ∧
  inits (items ≫= worker_log run) = [] ∧
  errors (items ≫= worker_log run) = [].
Proof.
  induction items as [|[name a] items IH]; [done|]. csimpl.
  rewrite progress_values_app, inits_app, errors_app.
  destruct IH as (-> & -> & ->). unfold worker_log. simpl.
  by destruct (run a) as [[?|]|?].
Qed.

Variables medical_report api_key : string.
Variables (results : list (string * pytext)) (tail : list event).

Lemma log_runs :
  runs (run_log run medical_report api_key results tail) =
  analyzers medical_report api_key ++ runs tail.
Proof.
  unfold run_log. rewrite !runs_app.
  rewrite workers_runs.
  by destruct (collect_log_only_progress results 0) as (-> & _).
Qed.

Lemma log_inits :
  inits (run_log run medical_report api_key results tail) =
  analyzers medical_report api_key ++ inits tail.
Proof.
  unfold run_log. rewrite !inits_app.
  destruct (workers_silent (agent_entries medical_report api_key))
    as (_ & -> & _).
  by destruct (collect_log_only_progress results 0) as (_ & -> & _).
Qed.

Lemma log_warnings :
  warnings (run_log run medical_report api_key results tail) =
  (warning_text <$> failed_names run medical_report api_key) ++ warnings tail.
Proof.
  unfold run_log. rewrite !warnings_app.
  rewrite workers_warnings.
  by destruct (collect_log_only_progress results 0) as (_ & _ & -> & _).
Qed.


Lemma log_progress :
  progress_values (run_log run medical_report api_key results tail) =
  [0; 10; 20] ++
  ((λ i : nat, 20 + (Z.of_nat i + 1) * 20) <$> seq 0 (length results)) ++
  progress_values tail.
Proof.
  unfold run_log. rewrite !progress_values_app.
  destruct (workers_silent (agent_entries medical_report api_key))
    as (-> & _ & _).
  by rewrite progress_collect_log.
Qed.

End Pieces.

(** * The run as a whole *)

Lemma responses_of_no_None (run : Agent → run_result)
    (medical_report api_key : string) :
  all_succeed run medical_report api_key →
  ∀ name response,
    responses_of run medical_report api_key !! name = Some response →
    response ≠ None.
Proof.
  intros Hall name response Hname.
  apply responses_of_lookup_Some in Hname as (a & Hin & ->).
  apply entry_analyzer, Hall in Hin as [text Hrun]. simpl in Hrun.
  unfold response_of. by rewrite Hrun.
Qed.


Lemma results_of_length (run : Agent → run_result)
    (medical_report api_key : string) (results : list (string * pytext)) :
  results ≡ₚ results_of run (agent_entries medical_report api_key) →
  length results = 3%nat.
Proof. by intros ->%Permutation_length. Qed.

(** The value returned does not depend on the order of completion. *)
Lemma process_outcome (run : Agent → run_result)
    (medical_report api_key : string) (sched : list nat) :
  outcome (process_medical_report run medical_report api_key sched) =
  inr (expected_return run medical_report api_key).
Proof.
  destruct (process_cases run medical_report api_key sched)
    as (results & tail & ret & Hcase & ->).
  cbn [outcome snd]. f_equal. unfold expected_return.
  destruct Hcase as [a message results Ha Hrun _
                    |a results _ Ha Hrun _
                    |a b c results Ha Hb Hc _ team].
  - apply elem_of_analyzers in Ha as [->| [->| ->]].
    all: rewrite ?Hrun; repeat case_match; congruence.
  - apply elem_of_analyzers in Ha as [->| [->| ->]].
    all: rewrite ?Hrun; repeat case_match; congruence.
  - by rewrite Ha, Hb, Hc.
Qed.

(** C6: the progress values of a run never decrease, and the last of them
    is 100 exactly when the run ends in success. *)
Theorem progress_monotone (run : Agent → run_result)
    (medical_report api_key : string) (sched : list nat) :
  let p := process_medical_report run medical_report api_key sched in
  Sorted Z.le (progress_values (events p)) ∧
  (last (progress_values (events p)) = Some 100 ↔ is_success (outcome p)).
Proof.
  destruct (process_cases run medical_report api_key sched)
    as (results & tail & ret & Hcase & ->).
  cbn [events outcome fst snd]. rewrite log_progress.
  destruct Hcase as [a message results Ha Hrun Hlen
                    |a results _ Ha Hrun Hp
                    |a b c results Ha Hb Hc Hp team].
  - destruct results as [|? [|? [|? ?]]]; simpl in Hlen; try lia;
      (split; [simpl; repeat (constructor; try lia)|]);
      (split; [done|by intros (? & ? & [=])]).
  - apply results_of_length in Hp.
    destruct results as [|? [|? [|? [|? ?]]]]; try done.
    split; [simpl; repeat (constructor; try lia)|].
    split; [done|by intros (? & ? & [=])].
  - apply results_of_length in Hp.
    destruct results as [|? [|? [|? [|? ?]]]]; try done.
    unfold team_log, team_ret.
    destruct (run team) as [[final_diagnosis|]|message];
      (split; [simpl; repeat (constructor; try lia)|]).
    + split; [by eexists _, _|done].
    + split; [done|by intros (? & ? & [=])].
    + split; [done|by intros (? & ? & [=])].
Qed.

(** ** How often the workers run *)

Lemma analyzers_NoDup (medical_report api_key : string) :
  NoDup (analyzers medical_report api_key).
Proof.
  unfold analyzers, agent_entries. simpl.
  repeat (apply NoDup_cons; split;
          [rewrite ?elem_of_cons, elem_of_nil; intuition discriminate|]).
  apply NoDup_nil_2.
Qed.

Lemma analyzer_not_team (medical_report api_key : string) (a : Agent) :
  a ∈ analyzers medical_report api_key → is_team a = false.
Proof. by intros [->| [->| ->]]%elem_of_analyzers. Qed.

Lemma count_occ_analyzers (medical_report api_key : string) (a : Agent) :
  a ∈ analyzers medical_report api_key →
  count_occ Agent_eq_dec (analyzers medical_report api_key) a = 1%nat.
Proof.
  intros Ha. apply NoDup_count_occ'; [|by apply list_elem_of_In].
  apply NoDup_ListNoDup, analyzers_NoDup.
Qed.

Lemma filter_team_analyzers (medical_report api_key : string) :
  filter (λ a, is_team a) (analyzers medical_report api_key) = [].
Proof. done. Qed.

(** The team's events after the loop, in each of the three cases. *)
Lemma run_case_team_events (run : Agent → run_result)
    (medical_report api_key : string) (results : list (string * pytext))
    (tail : list event) (ret : retval) :
  run_case run medical_report api_key results tail ret →
  (inits tail = [] ∧ runs tail = []) ∨
  (∃ a b c,
     run (Cardiologist medical_report api_key) = Returns (Some a) ∧
     run (Psychologist medical_report api_key) = Returns (Some b) ∧
     run (Pulmonologist medical_report api_key) = Returns (Some c) ∧
     inits tail = [MultidisciplinaryTeam (Some a) (Some b) (Some c) api_key] ∧
     runs tail = [MultidisciplinaryTeam (Some a) (Some b) (Some c) api_key]).
Proof.
  intros [a message results' Ha Hrun _
         |a results' _ Ha Hrun _
         |a b c results' Ha Hb Hc _ team]; [by left..|].
  right. exists a, b, c. split_and!; [done..| |];
    unfold team_log; by destruct (run team) as [[?|]|?].
Qed.

(** C8: in every run each analyzer's [run()] is called exactly once and the
    team's [run()] at most once: no worker is called again. *)
Theorem each_worker_runs_once (run : Agent → run_result)
    (medical_report api_key : string) (sched : list nat) :
  let log := events (process_medical_report run medical_report api_key sched) in
  (∀ a, a ∈ analyzers medical_report api_key →
        count_occ Agent_eq_dec (runs log) a = 1%nat) ∧
  (length (filter (λ a, is_team a) (runs log)) ≤ 1)%nat.
Proof.
  destruct (process_cases run medical_report api_key sched)
    as (results & tail & ret & Hcase & ->).
  cbn [events fst]. rewrite log_runs.
  apply run_case_team_events in Hcase
    as [[_ ->] | (a & b & c & _ & _ & _ & _ & ->)].
  - rewrite app_nil_r. split; [apply count_occ_analyzers|].
    rewrite filter_team_analyzers. simpl. lia.
  - split.
    + intros agent Hagent. rewrite count_occ_app, count_occ_analyzers by done.
      rewrite count_occ_cons_neq; [done|].
      intros <-. by apply analyzer_not_team in Hagent.
    + rewrite filter_app, filter_team_analyzers. simpl. lia.
Qed.

(** ** Success and the two stages of failure *)

Section Inversion.
Variable run : Agent → run_result.
Variables medical_report api_key : string.
Variables (results : list (string * pytext)) (tail : list event) (ret : retval).
Hypothesis Hcase : run_case run medical_report api_key results tail ret.

(** Every analyzer returned a text: the team was built and run. *)
Lemma run_case_all_succeed (a b c : string) :
  run (Cardiologist medical_report api_key) = Returns (Some a) →
  run (Psychologist medical_report api_key) = Returns (Some b) →
  run (Pulmonologist medical_report api_key) = Returns (Some c) →
  let team := MultidisciplinaryTeam (Some a) (Some b) (Some c) api_key in
  tail = team_log run team ∧
  ret = team_ret run team (responses_of run medical_report api_key).
Proof.
  intros Ha Hb Hc team. subst team.
  destruct Hcase as [a' message results' Ha' Hrun _
                    |a' results' _ Ha' Hrun _
                    |a' b' c' results' Ha' Hb' Hc' _ team].
  - apply elem_of_analyzers in Ha' as [->| [->| ->]]; congruence.
  - apply elem_of_analyzers in Ha' as [->| [->| ->]]; congruence.
  - subst team.
    assert (a' = a ∧ b' = b ∧ c' = c) as (-> & -> & ->)
      by (split_and!; congruence).
    done.
Qed.

(** An analyzer returned [None]: the team was neither built nor run. *)
Lemma run_case_some_absent (a : Agent) :
  a ∈ analyzers medical_report api_key → run a = Returns None →
  ret = (None, None) ∧ inits tail = [] ∧ runs tail = [] ∧ warnings tail = [] ∧
  (all_return run medical_report api_key → errors tail = [agents_failed_text]).
Proof.
  intros Ha Hrun.
  destruct Hcase as [a' message results' Ha' Hrun' _
                    |a' results' _ Ha' Hrun' _
                    |a' b' c' results' Ha' Hb' Hc' _ team].
  - split_and!; try done. intros Hall. destruct (Hall _ Ha'). congruence.
  - by split_and!.
  - apply elem_of_analyzers in Ha as [->| [->| ->]]; congruence.
Qed.

End Inversion.

(** C1 (as stated, refuted): the analyzers all answer, yet the run does not
    end in success, because the team returns [None]. *)
Lemma analyzers_succeed_run_fails :
  all_succeed run_team_absent "report" "key" ∧
  ¬ is_success (outcome (process_medical_report run_team_absent "report" "key" [])).
Proof.
  split.
  - intros a [->| [->| ->]]%elem_of_analyzers; by eexists.
  - rewrite process_outcome. by intros (? & ? & [=]).
Qed.

(** C1 (amended): when every analyzer returns a text, the team is built
    once, from the three texts, and run once; when the team returns a text
    too, the run returns the mapping with one entry for each analyzer name
    and the team's text. *)
Theorem all_succeed_success (run : Agent → run_result)
    (medical_report api_key : string) (sched : list nat) (a b c : string) :
  run (Cardiologist medical_report api_key) = Returns (Some a) →
  run (Psychologist medical_report api_key) = Returns (Some b) →
  run (Pulmonologist medical_report api_key) = Returns (Some c) →
  let team := MultidisciplinaryTeam (Some a) (Some b) (Some c) api_key in
  let p := process_medical_report run medical_report api_key sched in
  filter (λ a, is_team a) (inits (events p)) = [team] ∧
  filter (λ a, is_team a) (runs (events p)) = [team] ∧
  ∀ final_diagnosis, run team = Returns (Some final_diagnosis) →
    ∃ responses,
      outcome p = inr (Some responses, Some final_diagnosis) ∧
      responses = {[ "Cardiologist" := Some a; "Psychologist" := Some b;
                     "Pulmonologist" := Some c ]} ∧
      dom responses = {[ "Cardiologist"; "Psychologist"; "Pulmonologist" ]}.
Proof.
  intros Ha Hb Hc team p. subst p.
  destruct (process_cases run medical_report api_key sched)
    as (results & tail & ret & Hcase & ->).
  destruct (run_case_all_succeed _ _ _ _ _ _ Hcase _ _ _ Ha Hb Hc) as [-> ->].
  fold team. cbn [events outcome fst snd].
  rewrite log_inits, log_runs, !filter_app, filter_team_analyzers.
  split_and!.
  - unfold team_log. by destruct (run team) as [[?|]|?].
  - unfold team_log. by destruct (run team) as [[?|]|?].
  - intros final_diagnosis Hteam. unfold team_ret. rewrite Hteam.
    eexists. split; [done|].
    destruct (responses_of_lookup run medical_report api_key) as (_ & _ & _ & Hdom).
    split; [|done].
    unfold responses_of, results_of, agent_entries, response_of. simpl.
    by rewrite Ha, Hb, Hc, insert_empty.
Qed.

(** The theorem on a run in which every agent answers. *)
Lemma all_succeed_success_witness :
  let p := process_medical_report run_ok "report" "key" [2; 0]%nat in
  filter (λ a, is_team a) (inits (events p)) =
    [MultidisciplinaryTeam (Some "heart") (Some "mind") (Some "lungs") "key"] ∧
  filter (λ a, is_team a) (runs (events p)) =
    [MultidisciplinaryTeam (Some "heart") (Some "mind") (Some "lungs") "key"] ∧
  ∀ final_diagnosis,
    run_ok (MultidisciplinaryTeam (Some "heart") (Some "mind") (Some "lungs") "key")
      = Returns (Some final_diagnosis) →
    ∃ responses,
      outcome p = inr (Some responses, Some final_diagnosis) ∧
      responses = {[ "Cardiologist" := Some "heart"; "Psychologist" := Some "mind";
                     "Pulmonologist" := Some "lungs" ]} ∧
      dom responses = {[ "Cardiologist"; "Psychologist"; "Pulmonologist" ]}.
Proof.
  apply (all_succeed_success run_ok "report" "key" [2; 0]%nat
           "heart" "mind" "lungs"); reflexivity.
Defined.

Lemma string_app_length (s t : string) :
  String.length (s +:+ t) = (String.length s + String.length t)%nat.
Proof.
  induction s as [|ch s IH]; [done|].
  change (String ch s +:+ t) with (String ch (s +:+ t)).
  cbn [String.length]. by rewrite IH.
Qed.

Lemma string_app_inj_r (t s1 s2 : string) : s1 +:+ t = s2 +:+ t → s1 = s2.
Proof.
  revert s2. induction s1 as [|ch1 s1 IH]; intros [|ch2 s2] Heq.
  - done.
  - apply (f_equal String.length) in Heq.
    rewrite !string_app_length in Heq. cbn [String.length] in Heq. lia.
  - apply (f_equal String.length) in Heq.
    rewrite !string_app_length in Heq. cbn [String.length] in Heq. lia.
  - change (String ch1 (s1 +:+ t) = String ch2 (s2 +:+ t)) in Heq.
    injection Heq as -> Heq. f_equal. by apply IH.
Qed.

(** The text of a warning names one agent only. *)
Lemma warning_text_inj : Inj (=) (=) warning_text.
Proof.
  intros name name' Heq. unfold warning_text in Heq.
  apply String.app_inj in Heq. by apply string_app_inj_r in Heq.
Qed.

(** C2 (as stated, refuted): the value returned is the same whichever
    analyzer failed, so it does not name the failing analyzers. *)
Lemma failing_analyzers_not_returned :
  failed_names run_cardiologist_absent "report" "key" = ["Cardiologist"] ∧
  failed_names run_pulmonologist_absent "report" "key" = ["Pulmonologist"] ∧
  outcome (process_medical_report run_cardiologist_absent "report" "key" []) =
  outcome (process_medical_report run_pulmonologist_absent "report" "key" []).
Proof. split_and!; [done..|]. by rewrite !process_outcome. Qed.

(** C2 (amended): when an analyzer returns [None] the run returns
    [(None, None)], whatever the other analyzers do; the team is neither
    built nor run; and [st.warning] is called once for each analyzer that
    returned [None], with a text naming it, and for no other. *)
Theorem analyzer_absent_failure (run : Agent → run_result)
    (medical_report api_key : string) (sched : list nat) (a : Agent) :
  a ∈ analyzers medical_report api_key →
  run a = Returns None →
  let p := process_medical_report run medical_report api_key sched in
  outcome p = inr (None, None) ∧
  filter (λ a, is_team a) (inits (events p)) = [] ∧
  filter (λ a, is_team a) (runs (events p)) = [] ∧
  warnings (events p) ≡ₚ
    warning_text <$> failed_names run medical_report api_key ∧
  ∀ name, name ∈ failed_names run medical_report api_key ↔
          ∃ a', (name, a') ∈ agent_entries medical_report api_key ∧
                run a' = Returns None.
Proof.
  intros Ha Hrun p. subst p.
  destruct (process_cases run medical_report api_key sched)
    as (results & tail & ret & Hcase & ->).
  destruct (run_case_some_absent _ _ _ _ _ _ Hcase _ Ha Hrun)
    as (-> & Hinits & Hruns & Hwarn & _).
  cbn [events outcome fst snd].
  rewrite log_inits, log_runs, log_warnings, Hinits, Hruns, Hwarn, !app_nil_r.
  split_and!; [done..|].
  intros name. unfold failed_names. rewrite list_elem_of_fmap. split.
  - intros ([name' a'] & -> & [Hf Hin]%list_elem_of_filter).
    exists a'. split; [done|]. by apply bool_decide_unpack in Hf.
  - intros (a' & Hin & Hrun'). exists (name, a'). split; [done|].
    apply list_elem_of_filter. split; [|done]. by apply bool_decide_pack.
Qed.

(** The theorem on a run in which one analyzer returns [None] and another
    raises. *)
Lemma analyzer_absent_failure_witness :
  let p := process_medical_report run_absent_and_raised "report" "key" [1]%nat in
  outcome p = inr (None, None) ∧
  filter (λ a, is_team a) (inits (events p)) = [] ∧
  filter (λ a, is_team a) (runs (events p)) = [] ∧
  warnings (events p) ≡ₚ
    warning_text <$> failed_names run_absent_and_raised "report" "key" ∧
  ∀ name, name ∈ failed_names run_absent_and_raised "report" "key" ↔
          ∃ a', (name, a') ∈ agent_entries "report" "key" ∧
                run_absent_and_raised a' = Returns None.
Proof.
  apply (analyzer_absent_failure run_absent_and_raised "report" "key" [1]%nat
           (Psychologist "report" "key")).
  - apply elem_of_analyzers. right. left. reflexivity.
  - reflexivity.
Defined.






(** ** The order of completion *)

Lemma raises_or_all_return (run : Agent → run_result)
    (medical_report api_key : string) :
  (∃ a message, a ∈ analyzers medical_report api_key ∧ run a = Raises message) ∨
  all_return run medical_report api_key.
Proof.
  destruct (analyzers_trichotomy run medical_report api_key)
    as [H | [[H _] | (a & b & c & Ha & Hb & Hc)]]; [by left|by right|].
  right. intros agent [->| [->| ->]]%elem_of_analyzers; eauto.
Qed.

(** The loop ends normally exactly when no analyzer raises, and then with
    the complete mapping. *)
Lemma consult_outcome (run : Agent → run_result)
    (medical_report api_key : string) (sched : list nat) :
  let agents := agent_entries medical_report api_key in
  (all_return run medical_report api_key ∧
   outcome (consult run sched agents) =
   inr (responses_of run medical_report api_key)) ∨
  ((∃ a message, a ∈ analyzers medical_report api_key ∧ run a = Raises message) ∧
   ∃ e, outcome (consult run sched agents) = inl e).
Proof.
  intros agents. subst agents. rewrite consult_unfold. cbn [outcome snd].
  destruct (raises_or_all_return run medical_report api_key)
    as [(a & message & Ha & Hrun) | Hall].
  - right. split; [by eauto|].
    apply list_elem_of_fmap in Ha as (item & -> & Hitem).
    destruct (read_raised run sched _ _ _ Hitem Hrun)
      as [(item' & message' & _ & _ & ->) _]. by eexists.
  - left. split; [done|].
    destruct (read_complete run medical_report api_key sched Hall)
      as (-> & _ & ->). done.
Qed.

Lemma split_after_prefix {A} (P : A → Prop) (pre tail before after : list A)
    (d : A) :
  Forall (λ x, ¬ P x) pre → P d →
  pre ++ tail = before ++ d :: after →
  ∃ mid, before = pre ++ mid ∧ tail = mid ++ d :: after.
Proof.
  revert before. induction pre as [|x pre IH]; intros before Hpre Hd Heq.
  - by exists before.
  - apply Forall_cons in Hpre as [Hx Hpre].
    destruct before as [|y before]; simplify_eq/=; [done|].
    destruct (IH before Hpre Hd) as (mid & -> & ->); [done|]. by exists mid.
Qed.

Lemma collect_log_completed (results : list (string * pytext)) (completed : Z)
    (name : string) :
  name ∈ results.*1 →
  ev_status (completed_text name) ∈ collect_log results completed.
Proof.
  revert completed.
  induction results as [|[name' response] results IH]; intros completed Hin.
  - by apply elem_of_nil in Hin.
  - csimpl in Hin. apply elem_of_cons in Hin as [->|Hin]; simpl.
    + right. left.
    + right. right. by apply IH.
Qed.

Lemma no_decision_before_tail (run : Agent → run_result)
    (medical_report api_key : string) (results : list (string * pytext)) :
  Forall (λ e, ¬ is_decision e)
    (head_log medical_report api_key ++
     (agent_entries medical_report api_key ≫= worker_log run) ++
     collect_log results 0).
Proof.
  rewrite !Forall_app. split_and!.
  - unfold head_log, analyzers, agent_entries. simpl.
    repeat (constructor; [by intros []|]). constructor.
  - unfold agent_entries, worker_log. simpl.
    repeat case_match; repeat (constructor; [by intros []|]); constructor.
  - generalize 0. induction results as [|[name response] results IH];
      intros completed; simpl; [constructor|].
    repeat (constructor; [by intros []|]). apply IH.
Qed.

(** C5: two runs on the same input that differ in the order of completion
    only return the same value and, when the loop ends, end it with the same
    mapping, which has an entry for every analyzer; and in a run the failure
    of an analyzer is reported, and the team is built and run, only after
    the response of every analyzer was stored. *)
Theorem completion_order_irrelevant (run : Agent → run_result)
    (medical_report api_key : string) (sched1 sched2 : list nat) :
  let agents := agent_entries medical_report api_key in
  let p1 := process_medical_report run medical_report api_key sched1 in
  let p2 := process_medical_report run medical_report api_key sched2 in
  outcome p1 = outcome p2 ∧
  (∀ responses,
     outcome (consult run sched1 agents) = inr responses →
     outcome (consult run sched2 agents) = inr responses ∧
     dom responses = list_to_set agents.*1) ∧
  (all_return run medical_report api_key →
   ∃ responses, outcome (consult run sched1 agents) = inr responses) ∧
  (∀ before d after name,
     events p1 = before ++ d :: after → is_decision d →
     name ∈ agents.*1 →
     ev_status (completed_text name) ∈ before).
Proof.
  intros agents p1 p2. subst agents p1 p2. split_and!.
  - by rewrite !process_outcome.
  - intros responses Hr.
    destruct (consult_outcome run medical_report api_key sched1)
      as [[Hall H1] | [_ [e H1]]]; [|congruence].
    destruct (consult_outcome run medical_report api_key sched2)
      as [[_ H2] | [(a & message & Ha & Hrun) _]].
    + rewrite H1 in Hr. simplify_eq. split; [done|].
      by destruct (responses_of_lookup run medical_report api_key)
        as (_ & _ & _ & ->).
    + destruct (Hall a Ha). congruence.
  - intros Hall.
    destruct (consult_outcome run medical_report api_key sched1)
      as [[_ H1] | [(a & message & Ha & Hrun) _]]; [by eexists|].
    destruct (Hall a Ha). congruence.
  - intros before d after name Hlog Hd Hname.
    destruct (process_cases run medical_report api_key sched1)
      as (results & tail & ret & Hcase & Hp).
    rewrite Hp in Hlog. cbn [events fst] in Hlog. unfold run_log in Hlog.
    rewrite !app_assoc in Hlog.
    apply (split_after_prefix (λ e, is_decision e)) in Hlog
      as (mid & -> & Htail); [|rewrite <-!app_assoc|done].
    2: apply no_decision_before_tail.
    apply elem_of_app. left. apply elem_of_app. right.
    apply collect_log_completed.
    assert (results ≡ₚ results_of run (agent_entries medical_report api_key))
      as ->.
    { destruct Hcase as [a message results Ha Hrun _
                        |a results _ Ha Hrun Hperm
                        |a b c results Ha Hb Hc Hperm team]; [|done..].
      exfalso. destruct mid as [|? [|? ?]]; simplify_eq/=. done. }
    unfold results_of. by rewrite <-list_fmap_compose.
Qed.

(** C7 (as stated, refuted): the pulmonologist raises and its future is the
    first the loop reads.  The three analyzers ran, the loop reported no
    progress value, and 80 was not reached. *)
Lemma progress_not_per_completion :
  let agents := agent_entries "report" "key" in
  let log := events (consult run_absent_and_raised [2]%nat agents) in
  runs log = analyzers "report" "key" ∧
  progress_values log = [] ∧
  progress_values
    (events (process_medical_report run_absent_and_raised "report" "key"
               [2]%nat)) = [0; 10; 20].
Proof. vm_compute. done. Qed.

(** C7 (amended): in the analyzer phase the loop reports one progress value
    for each result it reads, not for each analyzer that completed: a future
    that raised ends the loop.  The values reported are the first of 40, 60
    and 80, one even step of the range from 20 to 80 for each result read,
    and 80 is reported with the third result only.  When no analyzer raises
    the three results are read and the values are 40, 60, 80; when an
    analyzer raises fewer than three are read and 80 is not reported. *)
Theorem analyzer_phase_progress (run : Agent → run_result)
    (medical_report api_key : string) (sched : list nat) :
  let agents := agent_entries medical_report api_key in
  let log := events (consult run sched agents) in
  ∃ results : list (string * pytext),
    log = ev_status "Running specialist consultations..." ::
          (agents ≫= worker_log run) ++ collect_log results 0 ∧
    (length results ≤ length agents)%nat ∧
    length agents = 3%nat ∧
    (all_return run medical_report api_key → results ≡ₚ results_of run agents) ∧
    ((∃ a message, a ∈ analyzers medical_report api_key ∧ run a = Raises message) →
     (length results < 3)%nat) ∧
    length (progress_values log) = length results ∧
    (∀ (i : nat) (v : Z), progress_values log !! i = Some v →
       v = 20 + (Z.of_nat i + 1) * ((80 - 20) / 3) ∧
       20 ≤ v ≤ 80 ∧
       (v = 80 ↔ i = 2%nat)) ∧
    (all_return run medical_report api_key →
     progress_values log = [40; 60; 80]) ∧
    ((∃ a message, a ∈ analyzers medical_report api_key ∧ run a = Raises message) →
     80 ∉ progress_values log).
Proof.
  intros agents log. subst log. rewrite consult_unfold. cbn [events fst].
  set (results := (read run sched agents).1).
  pose proof (read_length run sched agents) as Hlen. fold results in Hlen.
  exists results.
  assert (progress_values
            (ev_status "Running specialist consultations..." ::
             (agents ≫= worker_log run) ++ collect_log results 0) =
          (λ i : nat, 20 + (0 + Z.of_nat i + 1) * 20) <$> seq 0 (length results))
    as Hpv.
  { change (ev_status ?s :: ?l) with ([ev_status s] ++ l).
    rewrite !progress_values_app, progress_collect_log.
    by destruct (workers_silent run agents) as (-> & _ & _). }
  rewrite Hpv. split_and!; try done.
  - intros Hall. by destruct (read_complete run medical_report api_key sched Hall)
      as (_ & Hp & _).
  - intros (a & message & (item & -> & Hitem)%list_elem_of_fmap & Hrun).
    by destruct (read_raised run sched _ _ _ Hitem Hrun) as [_ Hlt].
  - by rewrite length_fmap, length_seq.
  - intros i v Hi. rewrite list_lookup_fmap in Hi.
    destruct (seq 0 (length results) !! i) as [j|] eqn:Hj; [|done].
    apply lookup_seq in Hj as [-> Hlt]. simpl in Hi, Hlen.
    injection Hi as <-. change ((80 - 20) / 3) with 20. lia.
  - intros Hall.
    destruct (read_complete run medical_report api_key sched Hall)
      as (_ & Hp & _).
    apply results_of_length in Hp. fold agents results in Hp.
    by rewrite Hp.
  - intros (a & message & (item & -> & Hitem)%list_elem_of_fmap & Hrun).
    destruct (read_raised run sched _ _ _ Hitem Hrun) as [_ Hlt].
    fold agents results in Hlt. simpl in Hlt.
    intros (i & Hi & Hin)%list_elem_of_fmap. apply elem_of_seq in Hin. lia.
Qed.

(** ** Input validation *)

Lemma truthy_Some (s : string) : truthy (Some s) = true ↔ s ≠ "".
Proof.
  unfold truthy. rewrite negb_true_iff, bool_decide_eq_false. done.
Qed.

Lemma load_api_key_spec (w : widgets) (ss : session_state) :
  let '(ss', api_key) := load_api_key w ss in
  ss_analysis_started ss' = ss_analysis_started ss ∧
  ss_medical_report ss' = ss_medical_report ss ∧
  (∀ key, api_key = Some key → key ≠ "").
Proof.
  unfold load_api_key.
  destruct (truthy (env_api_key w)) eqn:Henv; cbn [negb].
  - split_and!; [done..|]. intros key Hkey. rewrite Hkey in Henv.
    by apply truthy_Some.
  - destruct (truthy (Some (typed_api_key w))) eqn:Htyped.
    + split_and!; [done..|]. intros key [= <-]. by apply truthy_Some.
    + by split_and!.
Qed.

Section MainGuards.
Variable run : Agent → run_result.
Variables (w : widgets) (sched : list nat) (ss : session_state).
Hypothesis Hok : session_ok ss.

(** A run of [main] calls [process_medical_report] at most once, and with a
    report and a key that are not empty. *)
Lemma main_calls :
  events (main run w sched ss) = [] ∨
  ∃ medical_report api_key,
    medical_report ≠ "" ∧ api_key ≠ "" ∧
    events (main run w sched ss) =
    events (process_medical_report run medical_report api_key sched).
Proof.
  unfold main. pose proof (load_api_key_spec w ss) as Hload.
  destruct (load_api_key w ss) as [ss1 [api_key|]]; [|by left].
  destruct Hload as (Hstarted & Hreport & Hkey).
  specialize (Hkey _ eq_refl).
  rewrite (proj2 (truthy_Some api_key) Hkey). cbn [negb].
  set (ss2 := if truthy (medical_report_text w) && start_clicked w
              then _ else ss1).
  assert (session_ok ss2) as Hok2.
  { subst ss2. destruct (truthy (medical_report_text w)) eqn:Htext; simpl.
    - destruct (start_clicked w); simpl.
      + intros _. destruct (medical_report_text w) as [text|]; [|done].
        exists text. split; [done|]. by apply truthy_Some.
      + unfold session_ok. by rewrite Hstarted, Hreport.
    - unfold session_ok. by rewrite Hstarted, Hreport. }
  clearbody ss2.
  destruct (ss_analysis_started ss2) as [[|]|] eqn:Hs; [|by left..].
  destruct (Hok2 Hs) as (text & -> & Htext).
  right. exists text, api_key. split_and!; [done..|].
  rewrite ret_bind, bind_unfold, process_outcome. cbn [events fst].
  destruct (expected_return run text api_key) as [responses final_diagnosis].
  repeat case_match; cbn [events fst]; by rewrite app_nil_r.
Qed.

Lemma main_session_ok (ss' : session_state) :
  outcome (main run w sched ss) = inr ss' → session_ok ss'.
Proof.
  unfold main. pose proof (load_api_key_spec w ss) as Hload.
  destruct (load_api_key w ss) as [ss1 [api_key|]].
  2:{ destruct Hload as (Hstarted & Hreport & _). intros [= <-].
      unfold session_ok. by rewrite Hstarted, Hreport. }
  destruct Hload as (Hstarted & Hreport & Hkey).
  specialize (Hkey _ eq_refl).
  rewrite (proj2 (truthy_Some api_key) Hkey). cbn [negb].
  set (ss2 := if truthy (medical_report_text w) && start_clicked w
              then _ else ss1).
  assert (session_ok ss2) as Hok2.
  { subst ss2. destruct (truthy (medical_report_text w)) eqn:Htext; simpl.
    - destruct (start_clicked w); simpl.
      + intros _. destruct (medical_report_text w) as [text|]; [|done].
        exists text. split; [done|]. by apply truthy_Some.
      + unfold session_ok. by rewrite Hstarted, Hreport.
    - unfold session_ok. by rewrite Hstarted, Hreport. }
  clearbody ss2.
  destruct (ss_analysis_started ss2) as [[|]|] eqn:Hs;
    [|by intros [= <-]..].
  destruct (Hok2 Hs) as (text & -> & Htext).
  rewrite ret_bind, bind_unfold, process_outcome. cbn [outcome snd].
  destruct (expected_return run text api_key) as [responses final_diagnosis].
  repeat case_match; cbn [outcome snd]; intros [= <-]; done.
Qed.

End MainGuards.

Lemma reachable_session_ok (ss : session_state) : reachable ss → session_ok ss.
Proof.
  induction 1 as [|run w sched ss ss' _ IH Hmain]; [done|].
  by apply (main_session_ok run w sched ss).
Qed.

(** C4 (as stated, refuted): with an empty report and an empty key the
    workers are built and run, and the run ends in success. *)
Lemma empty_input_processed :
  let p := process_medical_report run_ok "" "" [] in
  inits (events p) =
    [Cardiologist "" ""; Psychologist "" ""; Pulmonologist "" "";
     MultidisciplinaryTeam (Some "heart") (Some "mind") (Some "lungs") ""] ∧
  runs (events p) = inits (events p) ∧
  progress_values (events p) = [0; 10; 20; 40; 60; 80; 80; 100] ∧
  is_success (outcome p).
Proof.
  split_and!; [by vm_compute..|]. rewrite process_outcome. by eexists _, _.
Qed.

(** C4 (amended): [process_medical_report] does not check its input: with
    an empty report or an empty key it builds the three analyzers with that
    report and key, runs each of them, and returns what their answers
    determine, as for any other input.  Empty inputs are kept out by
    [main], which calls it with a non-empty report and a non-empty key
    only. *)
Theorem no_input_validation (run : Agent → run_result)
    (medical_report api_key : string) (sched : list nat) :
  medical_report = "" ∨ api_key = "" →
  let p := process_medical_report run medical_report api_key sched in
  (∃ rest, inits (events p) = analyzers medical_report api_key ++ rest) ∧
  (∀ a, a ∈ analyzers medical_report api_key → a ∈ runs (events p)) ∧
  outcome p = inr (expected_return run medical_report api_key) ∧
  (∀ w ss, reachable ss →
     events (main run w sched ss) = [] ∨
     ∃ medical_report' api_key',
       medical_report' ≠ "" ∧ api_key' ≠ "" ∧
       events (main run w sched ss) =
       events (process_medical_report run medical_report' api_key' sched)).
Proof.
  intros _ p. subst p. split_and!.
  - destruct (process_cases run medical_report api_key sched)
      as (results & tail & ret & _ & ->).
    cbn [events fst]. rewrite log_inits. by eexists.
  - destruct (process_cases run medical_report api_key sched)
      as (results & tail & ret & _ & ->).
    cbn [events fst]. rewrite log_runs. intros a Ha.
    apply elem_of_app. by left.
  - apply process_outcome.
  - intros w ss Hss. by apply main_calls, reachable_session_ok.
Qed.

(** The theorem on an empty report. *)
Lemma no_input_validation_witness :
  let p := process_medical_report run_ok "" "key" [1]%nat in
  (∃ rest, inits (events p) = analyzers "" "key" ++ rest) ∧
  (∀ a, a ∈ analyzers "" "key" → a ∈ runs (events p)) ∧
  outcome p = inr (expected_return run_ok "" "key") ∧
  (∀ w ss, reachable ss →
     events (main run_ok w [1]%nat ss) = [] ∨
     ∃ medical_report' api_key',
       medical_report' ≠ "" ∧ api_key' ≠ "" ∧
       events (main run_ok w [1]%nat ss) =
       events (process_medical_report run_ok medical_report' api_key' [1]%nat)).
Proof.
  apply (no_input_validation run_ok "" "key" [1]%nat). left. reflexivity.
Defined.

(** ** The dictionary display *)

Lemma dict_get_set {V} (k k' : string) (v : V) (d : list (string * V)) :
  dict_get k (dict_set k' v d) =
  if decide (k' = k) then Some v else dict_get k d.
Proof.
  induction d as [|[k'' v''] d IH]; simpl.
  - by destruct (decide (k' = k)).
  - destruct (decide (k'' = k')) as [->|Hne]; simpl.
    + by destruct (decide (k' = k)).
    + rewrite IH. destruct (decide (k'' = k)) as [->|]; [|done].
      by rewrite decide_False by done.
Qed.

Lemma dict_set_keys {V} (k : string) (v : V) (d : list (string * V)) :
  (dict_set k v d).*1 = if decide (k ∈ d.*1) then d.*1 else d.*1 ++ [k].
Proof.
  induction d as [|[k' v'] d IH]; [done|]. simpl.
  destruct (decide (k' = k)) as [->|Hne]; csimpl.
  - by rewrite decide_True by left.
  - rewrite IH. destruct (decide (k ∈ d.*1)) as [Hin|Hout].
    + by rewrite decide_True by by right.
    + rewrite decide_False; [done|]. rewrite elem_of_cons. by intros [?|?].
Qed.

Lemma dict_set_NoDup {V} (k : string) (v : V) (d : list (string * V)) :
  NoDup d.*1 → NoDup (dict_set k v d).*1.
Proof.
  intros Hnd. rewrite dict_set_keys. case_decide; [done|].
  apply NoDup_app. split_and!; [done| |apply NoDup_singleton].
  intros k' Hk' ->%list_elem_of_singleton. done.
Qed.

(** The display builds every value and raises nothing; a repeated name
    keeps the value built last. *)
Lemma dict_display_spec (entries d : list (string * Agent)) :
  NoDup d.*1 →
  ∃ d', dict_display entries d = (ev_init <$> entries.*2, inr d') ∧
        NoDup d'.*1 ∧
        ∀ name, dict_get name d' =
                match dict_get name (reverse entries) with
                | Some agent => Some agent
                | None => dict_get name d
                end.
Proof.
  revert d. induction entries as [|[name agent] entries IH]; intros d Hnd.
  - by exists d.
  - destruct (IH (dict_set name agent d)) as (d' & Heq & Hnd' & Hget);
      [by apply dict_set_NoDup|].
    exists d'. split_and!; [|done|].
    + cbn [dict_display]. rewrite bind_unfold. unfold construct.
      rewrite emit_bind. cbn [events outcome fst snd mret M_ret].
      by rewrite Heq.
    + intros name'. rewrite Hget, reverse_cons, dict_get_set.
      clear. induction (reverse entries) as [|[k v] l IHl]; simpl.
      * by destruct (decide (name = name')).
      * by destruct (decide (k = name')).
Qed.

(** * Exceptions of any class *)

(** [process_medical_report] is [process_medical_report_any] for agents that
    raise instances of [Exception] only. *)
Lemma get_response_any_calls_of (run : Agent → run_result)
    (name : string) (agent : Agent) :
  get_response_any (calls_of run) name agent = get_response run name agent.
Proof.
  unfold get_response_any, get_response, agent_run_any, agent_run, calls_of.
  by destruct (run agent).
Qed.

Lemma submit_all_any_calls_of (run : Agent → run_result)
    (items : list (string * Agent)) :
  submit_all_any (calls_of run) items = submit_all run items.
Proof.
  induction items as [|[name agent] items IH]; [done|].
  cbn [submit_all_any submit_all]. by rewrite get_response_any_calls_of, IH.
Qed.

Lemma conclude_any_calls_of (run : Agent → run_result)
    (responses : gmap string pytext) (api_key : string) :
  conclude_any (calls_of run) responses api_key =
  conclude run responses api_key.
Proof.
  unfold conclude_any, conclude, getitem, construct.
  destruct (None_in_values responses); [done|].
  destruct (responses !! "Cardiologist") as [a|]; [|done].
  destruct (responses !! "Psychologist") as [b|]; [|done].
  destruct (responses !! "Pulmonologist") as [c|]; [|done].
  unfold agent_run_any, agent_run, calls_of. simpl.
  by destruct (run (MultidisciplinaryTeam a b c api_key)).
Qed.

Lemma consult_any_calls_of (run : Agent → run_result) (sched : list nat)
    (agents : list (string * Agent)) :
  consult_any (calls_of run) sched agents = consult run sched agents.
Proof. unfold consult_any, consult. by rewrite submit_all_any_calls_of. Qed.

Lemma process_medical_report_any_calls_of (run : Agent → run_result)
    (medical_report api_key : string) (sched : list nat) :
  process_medical_report_any (calls_of run) medical_report api_key sched =
  process_medical_report run medical_report api_key sched.
Proof.
  unfold process_medical_report_any, process_medical_report, process_agents.
  do 3 f_equal.
  change (dict_display (agent_entries medical_report api_key) [])
    with ((ev_init <$> analyzers medical_report api_key,
           inr (agent_entries medical_report api_key)) : M _).
  rewrite !(bind_unfold (_, _)). cbn [events outcome fst snd].
  rewrite !emit_bind, consult_any_calls_of. cbn [events outcome fst snd].
  rewrite !bind_unfold.
  destruct (outcome (consult _ _ _)) as [e|responses]; [done|].
  by rewrite conclude_any_calls_of.
Qed.

Section AnyExceptionFacts.
Variable call : Agent → exn + pytext.

Lemma get_response_any_outcome (name : string) (agent : Agent) :
  outcome (get_response_any call name agent) =
  match call agent with
  | inl e => inl e
  | inr response => inr (name, response)
  end.
Proof.
  unfold get_response_any, agent_run_any.
  destruct (call agent) as [e|[text|]]; reflexivity.
Qed.

Lemma submit_all_any_outcome (items : list (string * Agent)) :
  outcome (submit_all_any call items) =
  inr ((λ item, (outcome (get_response_any call item.1 item.2), item.1))
         <$> items).
Proof.
  induction items as [|[name agent] items IH]; [done|].
  cbn [submit_all_any]. unfold submit.
  destruct (submit_all_any call items) as [log futures].
  unfold outcome in IH. simpl in IH. subst futures. reflexivity.
Qed.

(** An exception that leaves the loop was raised by the [run()] of an
    agent. *)
Lemma consult_any_raises (sched : list nat) (agents : list (string * Agent))
    (e : exn) :
  outcome (consult_any call sched agents) = inl e →
  ∃ agent, call agent = inl e.
Proof.
  unfold consult_any. rewrite emit_bind. cbn [outcome snd].
  rewrite bind_unfold, submit_all_any_outcome.
  cbn [outcome events fst snd]. rewrite collect_unfold. cbn [snd].
  destruct (read_prefix _).2 as [e'|] eqn:Hread; [|done].
  intros [= ->]. apply read_prefix_Some in Hread.
  rewrite as_completed_perm, <-list_fmap_compose in Hread.
  apply list_elem_of_fmap in Hread as ([name agent] & Heq & _).
  simpl in Heq. rewrite get_response_any_outcome in Heq.
  exists agent. destruct (call agent); congruence.
Qed.

(** An exception that leaves the conclusion is a [KeyError] or was raised by
    the [run()] of an agent. *)
Lemma conclude_any_raises (responses : gmap string pytext)
    (api_key : string) (e : exn) :
  outcome (conclude_any call responses api_key) = inl e →
  is_Exception e = true ∨ ∃ agent, call agent = inl e.
Proof.
  unfold conclude_any, getitem, agent_run_any.
  destruct (None_in_values responses); [done|].
  destruct (responses !! "Cardiologist") as [a|]; simpl;
    [|intros [= <-]; by left].
  destruct (responses !! "Psychologist") as [b|]; simpl;
    [|intros [= <-]; by left].
  destruct (responses !! "Pulmonologist") as [c|]; simpl;
    [|intros [= <-]; by left].
  destruct (call _) as [e'|[text|]] eqn:Hcall; simpl; [|done..].
  intros [= <-]. right. by eexists.
Qed.

(** What the conclusion returns: [(None, None)], or the responses, none of
    them [None], and a diagnosis. *)
Lemma conclude_any_returns (responses : gmap string pytext)
    (api_key : string) (ret : retval) :
  outcome (conclude_any call responses api_key) = inr ret →
  ret = (None, None) ∨
  ∃ final_diagnosis,
    ret = (Some responses, Some final_diagnosis) ∧
    None_in_values responses = false.
Proof.
  unfold conclude_any, getitem, agent_run_any.
  destruct (None_in_values responses); [intros [= <-]; by left|].
  destruct (responses !! "Cardiologist") as [a|]; simpl; [|done].
  destruct (responses !! "Psychologist") as [b|]; simpl; [|done].
  destruct (responses !! "Pulmonologist") as [c|]; simpl; [|done].
  destruct (call _) as [e'|[text|]]; simpl; [done| |].
  - intros [= <-]. right. by exists text.
  - intros [= <-]. by left.
Qed.

Lemma try_body_raises (medical_report api_key : string) (sched : list nat)
    (e : exn) :
  outcome (try_body call medical_report api_key sched) = inl e →
  is_Exception e = true ∨ ∃ agent, call agent = inl e.
Proof.
  unfold try_body. rewrite !emit_bind. cbn [outcome snd].
  change (dict_display (agent_entries medical_report api_key) [])
    with ((ev_init <$> analyzers medical_report api_key,
           inr (agent_entries medical_report api_key)) : M _).
  rewrite bind_unfold. cbn [events outcome fst snd].
  rewrite emit_bind. cbn [outcome snd]. rewrite bind_unfold.
  destruct (outcome (consult_any _ _ _)) as [e'|responses] eqn:Hconsult.
  - intros [= <-]. right. by eapply consult_any_raises.
  - cbn [outcome snd]. apply conclude_any_raises.
Qed.

Lemma try_body_returns (medical_report api_key : string) (sched : list nat)
    (ret : retval) :
  outcome (try_body call medical_report api_key sched) = inr ret →
  ret = (None, None) ∨
  ∃ responses final_diagnosis,
    ret = (Some responses, Some final_diagnosis) ∧
    None_in_values responses = false.
Proof.
  unfold try_body. rewrite !emit_bind. cbn [outcome snd].
  change (dict_display (agent_entries medical_report api_key) [])
    with ((ev_init <$> analyzers medical_report api_key,
           inr (agent_entries medical_report api_key)) : M _).
  rewrite bind_unfold. cbn [events outcome fst snd].
  rewrite emit_bind. cbn [outcome snd]. rewrite bind_unfold.
  destruct (outcome (consult_any _ _ _)) as [e'|responses]; [done|].
  cbn [outcome snd]. intros [?|(d & ? & ?)]%conclude_any_returns; eauto.
Qed.

Lemma process_medical_report_any_outcome (medical_report api_key : string)
    (sched : list nat) :
  outcome (process_medical_report_any call medical_report api_key sched) =
  match outcome (try_body call medical_report api_key sched) with
  | inl e => if is_Exception e then inr (None, None) else inl e
  | inr ret => inr ret
  end.
Proof.
  unfold process_medical_report_any. fold (try_body call medical_report api_key sched).
  rewrite !emit_bind. cbn [outcome snd]. rewrite try_except_unfold.
  destruct (outcome (try_body _ _ _ _)) as [e|ret]; [|done].
  by destruct (is_Exception e).
Qed.

(** An exception leaves [process_medical_report] only if it is no instance
    of [Exception] and was raised by the [run()] of an agent. *)
Lemma process_medical_report_any_raises (medical_report api_key : string)
    (sched : list nat) (e : exn) :
  outcome (process_medical_report_any call medical_report api_key sched) =
    inl e →
  is_Exception e = false ∧ ∃ agent, call agent = inl e.
Proof.
  rewrite process_medical_report_any_outcome.
  destruct (outcome (try_body _ _ _ _)) as [e'|ret] eqn:Hbody; [|done].
  destruct (is_Exception e') eqn:He'; [done|]. intros [= <-]. split; [done|].
  apply try_body_raises in Hbody as [?|?]; [congruence|done].
Qed.

Lemma process_medical_report_any_returns (medical_report api_key : string)
    (sched : list nat) (ret : retval) :
  outcome (process_medical_report_any call medical_report api_key sched) =
    inr ret →
  ret = (None, None) ∨
  ∃ responses final_diagnosis,
    ret = (Some responses, Some final_diagnosis) ∧
    None_in_values responses = false.
Proof.
  rewrite process_medical_report_any_outcome.
  destruct (outcome (try_body _ _ _ _)) as [e'|ret'] eqn:Hbody.
  - destruct (is_Exception e'); [|done]. intros [= <-]. by left.
  - intros [= <-]. by apply try_body_returns in Hbody.
Qed.

End AnyExceptionFacts.

(** C10 (as stated, refuted): an exception that is no instance of
    [Exception] is not handled by [except Exception].  The analyzers answer
    and the [run()] of the team is interrupted: the exception leaves
    [process_medical_report], which returns nothing, and [st.error] is not
    called. *)
Lemma interrupt_propagates :
  let p := process_medical_report_any call_interrupted "report" "key" [] in
  outcome p = inl (BaseException "KeyboardInterrupt") ∧
  outcome p ≠ inr (None, None) ∧
  errors (events p) = [] ∧
  progress_values (events p) = [0; 10; 20; 40; 60; 80; 80].
Proof. vm_compute. done. Qed.

(** C10 (amended): an exception leaves [process_medical_report] only if it
    is no instance of [Exception] and was raised by the [run()] of an agent
    (the calls to the user interface are taken to return).  So when every
    exception raised by the [run()] of an agent is an instance of
    [Exception], no exception leaves, and a run that does not end in success
    returns [(None, None)], whether an analyzer failed, the team failed or an
    exception was raised.  In every run, when the first component returned
    is not [None], no response in it is [None] and the final diagnosis is
    not [None] either. *)
Theorem exceptions_return_None_None (call : Agent → exn + pytext)
    (medical_report api_key : string) (sched : list nat) :
  let r := outcome (process_medical_report_any call medical_report api_key
                      sched) in
  (∀ e, r = inl e → is_Exception e = false ∧ ∃ agent, call agent = inl e) ∧
  ((∀ agent e, call agent = inl e → is_Exception e = true) →
   (∃ ret, r = inr ret) ∧
   (¬ is_success r → r = inr (None, None))) ∧
  (∀ responses final_diagnosis,
     r = inr (Some responses, final_diagnosis) →
     final_diagnosis ≠ None ∧
     ∀ name response, responses !! name = Some response → response ≠ None).
Proof.
  intros r. subst r.
  destruct (outcome (process_medical_report_any _ _ _ _)) as [e|ret] eqn:Hr.
  { apply process_medical_report_any_raises in Hr as [He (agent & Hagent)].
    split_and!; [|by intros Hcall; apply Hcall in Hagent; congruence|done].
    intros ? [= <-]. split; [done|by exists agent]. }
  split; [done|].
  apply process_medical_report_any_returns in Hr
    as [->|(responses & d & -> & Hvalues)].
  - split; [|done]. intros _. split; [by eexists|done].
  - split.
    + intros _. split; [by eexists|]. intros []. by eexists _, _.
    + intros ? ? [= <- <-]. split; [done|].
      by apply None_in_values_false.
Qed.

(** The theorem on agents of which one returns [None], one raises an
    [Exception] and the team a [KeyError]. *)
Lemma exceptions_return_None_None_witness :
  (∀ agent e, call_failing agent = inl e → is_Exception e = true) ∧
  outcome (process_medical_report_any call_failing "report" "key" [2%nat]) =
    inr (None, None).
Proof.
  assert (∀ agent e, call_failing agent = inl e → is_Exception e = true)
    as Hcall.
  { intros [] e; simpl; intros [= <-]; reflexivity. }
  split; [exact Hcall|].
  destruct (exceptions_return_None_None call_failing "report" "key" [2%nat])
    as (_ & Hhandled & _).
  apply (Hhandled Hcall). vm_compute. by intros (? & ? & [=]).
Defined.

(** * More about the run *)

(** ** Exceptions *)






(** ** What the user is told *)



(** X4: a run that succeeds reports the progress values 0, 10, 20, 40, 60,
    80, 80 and 100, and its last call sets the status to the message of
    success. *)
Theorem success_trace (run : Agent → run_result)
    (medical_report api_key : string) (sched : list nat) :
  let p := process_medical_report run medical_report api_key sched in
  is_success (outcome p) →
  progress_values (events p) = [0; 10; 20; 40; 60; 80; 80; 100] ∧
  last (events p) = Some (ev_status "Analysis completed successfully!").
Proof.
  destruct (process_cases run medical_report api_key sched)
    as (results & tail & ret & Hcase & ->).
  cbn [events outcome fst snd]. rewrite log_progress. unfold run_log.
  destruct Hcase as [a message results Ha Hrun _
                    |a results _ Ha Hrun _
                    |a b c results Ha Hb Hc Hp team];
    [by intros (? & ? & [=])..|].
  apply results_of_length in Hp. rewrite Hp.
  unfold team_log, team_ret.
  destruct (run team) as [[final_diagnosis|]|message];
    [|by intros (? & ? & [=])..].
  intros _. split; [done|]. by rewrite !last_app.
Qed.

(** The theorem on a run in which every agent answers. *)
Lemma success_trace_witness :
  let p := process_medical_report run_ok "report" "key" [1; 1]%nat in
  progress_values (events p) = [0; 10; 20; 40; 60; 80; 80; 100] ∧
  last (events p) = Some (ev_status "Analysis completed successfully!").
Proof.
  apply (success_trace run_ok "report" "key" [1; 1]%nat).
  eexists _, _. vm_compute. reflexivity.
Defined.

(** * The page *)

(** ** A run of [main], by cases *)

Section MainCases.
Variable run : Agent → run_result.
Variables (w : widgets) (sched : list nat) (ss ss1 : session_state).

Lemma main_no_key :
  load_api_key w ss = (ss1, None) → main run w sched ss = ([], inr ss1).
Proof. unfold main. by intros ->. Qed.

Lemma main_idle (api_key : string) :
  load_api_key w ss = (ss1, Some api_key) →
  ss_analysis_started (after_upload w ss1) ≠ Some true →
  main run w sched ss = ([], inr (after_upload w ss1)).
Proof.
  intros Hload Hidle. unfold main.
  pose proof (load_api_key_spec w ss) as Hspec. rewrite Hload in Hspec.
  destruct Hspec as (_ & _ & Hkey). specialize (Hkey _ eq_refl).
  rewrite Hload, (proj2 (truthy_Some api_key) Hkey). cbn [negb].
  fold (after_upload w ss1).
  by destruct (ss_analysis_started (after_upload w ss1)) as [[|]|].
Qed.

Lemma main_analysis (api_key medical_report : string) :
  load_api_key w ss = (ss1, Some api_key) →
  ss_analysis_started (after_upload w ss1) = Some true →
  ss_medical_report (after_upload w ss1) = Some medical_report →
  main run w sched ss =
  (events (process_medical_report run medical_report api_key sched),
   inr (if shown (expected_return run medical_report api_key)
           && again_clicked w
        then reset_analysis (after_upload w ss1)
        else after_upload w ss1)).
Proof.
  intros Hload Hstarted Hreport. unfold main.
  pose proof (load_api_key_spec w ss) as Hspec. rewrite Hload in Hspec.
  destruct Hspec as (_ & _ & Hkey). specialize (Hkey _ eq_refl).
  rewrite Hload, (proj2 (truthy_Some api_key) Hkey). cbn [negb].
  fold (after_upload w ss1). rewrite Hstarted, Hreport.
  rewrite ret_bind, bind_unfold, process_outcome. unfold shown.
  destruct (expected_return run medical_report api_key)
    as [responses final_diagnosis]. cbn [fst snd].
  repeat case_match; cbn [events outcome fst snd andb];
    by rewrite ?app_nil_r.
Qed.

End MainCases.

Lemma after_upload_inv (w : widgets) (ss : session_state) :
  session_inv ss → session_inv (after_upload w ss).
Proof.
  intros Hinv. unfold after_upload.
  destruct (truthy (medical_report_text w)) eqn:Htext; [|done].
  destruct (start_clicked w); [|done]. right. split; [done|].
  destruct (medical_report_text w) as [text|]; [|done].
  exists text. split; [done|]. by apply truthy_Some.
Qed.

Lemma load_api_key_inv (w : widgets) (ss ss1 : session_state) (k : pytext) :
  load_api_key w ss = (ss1, k) → session_inv ss → session_inv ss1.
Proof.
  intros Hload. pose proof (load_api_key_spec w ss) as Hspec.
  rewrite Hload in Hspec. destruct Hspec as (Hs & Hr & _).
  unfold session_inv. by rewrite Hs, Hr.
Qed.

(** A run of [main] on a session of the invariant ends normally, in a
    session of the invariant. *)
Lemma main_inv (run : Agent → run_result) (w : widgets) (sched : list nat)
    (ss : session_state) :
  session_inv ss →
  ∃ ss', outcome (main run w sched ss) = inr ss' ∧ session_inv ss'.
Proof.
  intros Hinv. destruct (load_api_key w ss) as [ss1 [api_key|]] eqn:Hload.
  - pose proof (after_upload_inv w ss1 (load_api_key_inv _ _ _ _ Hload Hinv))
      as [[Hs Hr] | [Hs (text & Hr & Htext)]].
    + rewrite (main_idle run w sched ss ss1 api_key Hload) by by rewrite Hs.
      eexists. split; [done|]. by left.
    + rewrite (main_analysis run w sched ss ss1 api_key text Hload Hs Hr).
      eexists. split; [done|]. case_match; [by left|].
      right. split; [done|]. by exists text.
  - rewrite (main_no_key run w sched ss ss1 Hload).
    eexists. split; [done|]. by apply (load_api_key_inv _ _ _ _ Hload).
Qed.

Lemma reachable_inv (ss : session_state) : reachable ss → session_inv ss.
Proof.
  induction 1 as [|run w sched ss ss' _ IH Hmain]; [by left|].
  destruct (main_inv run w sched ss IH) as (ss'' & Hss'' & Hinv).
  rewrite Hss'' in Hmain. by simplify_eq.
Qed.

(** X5: in every session the script can reach, the two keys of an analysis
    are both absent, or 'analysis_started' is [True] and 'medical_report'
    is a non-empty text. *)
Theorem reachable_session_inv (ss : session_state) :
  reachable ss →
  (ss_analysis_started ss = None ∧ ss_medical_report ss = None) ∨
  (ss_analysis_started ss = Some true ∧
   ∃ text, ss_medical_report ss = Some text ∧ text ≠ "").
Proof. apply reachable_inv. Qed.

(** The theorem on the session left by a click on the start button. *)
Lemma reachable_session_inv_witness :
  let ss := {| ss_api_key := Some "typed";
               ss_analysis_started := Some true;
               ss_medical_report := Some "new report" |} in
  (ss_analysis_started ss = None ∧ ss_medical_report ss = None) ∨
  (ss_analysis_started ss = Some true ∧
   ∃ text, ss_medical_report ss = Some text ∧ text ≠ "").
Proof.
  apply reachable_session_inv.
  apply (reachable_main run_ok start_widgets [] empty_session);
    [apply reachable_empty|].
  vm_compute. reflexivity.
Defined.

(** ** The key *)

Lemma load_api_key_stored (w : widgets) (ss ss1 : session_state)
    (api_key : string) :
  load_api_key w ss = (ss1, Some api_key) → ss_api_key ss1 = Some api_key.
Proof.
  unfold load_api_key. repeat case_match; intros [= <- Hk]; simpl; congruence.
Qed.

(** X7: [load_api_key] prefers the key of the environment to the typed
    one; the key it returns is never empty and is the one it stores in the
    session under 'api_key'; it returns [None], and leaves the session as it
    is, exactly when both keys are missing or empty; it never touches the
    keys of the analysis. *)
Theorem load_api_key_key (w : widgets) (ss : session_state) :
  let ss' := (load_api_key w ss).1 in
  let api_key := (load_api_key w ss).2 in
  (truthy (env_api_key w) = true → api_key = env_api_key w) ∧
  (∀ key, api_key = Some key → key ≠ "" ∧ ss_api_key ss' = Some key) ∧
  (api_key = None ↔
   truthy (env_api_key w) = false ∧ typed_api_key w = "") ∧
  (api_key = None → ss' = ss) ∧
  ss_analysis_started ss' = ss_analysis_started ss ∧
  ss_medical_report ss' = ss_medical_report ss.
Proof.
  unfold load_api_key.
  destruct (truthy (env_api_key w)) eqn:Henv; cbn [negb fst snd].
  - split_and!; try done.
    + intros key Hkey. split; [|done]. rewrite Hkey in Henv.
      by apply truthy_Some.
    + split; [|by intros []]. intros Hnone. by rewrite Hnone in Henv.
    + intros Hnone. by rewrite Hnone in Henv.
  - destruct (truthy (Some (typed_api_key w))) eqn:Htyped; cbn [fst snd].
    + apply truthy_Some in Htyped. split_and!; try done.
      * by intros key [= <-].
      * split; [done|]. by intros [_ ?].
    + split_and!; try done. split; [|done]. intros _. split; [done|].
      destruct (decide (typed_api_key w = "")) as [|Hne]; [done|].
      apply truthy_Some in Hne. congruence.
Qed.

(** ** The analysis *)

(** X10: a click on the start button, which needs a non-empty text, stores
    that text and has it analysed in the same run of [main], in place of
    whatever report the session held. *)
Theorem start_analyses_new_text (run : Agent → run_result) (w : widgets)
    (sched : list nat) (ss : session_state) (text api_key : string) :
  medical_report_text w = Some text →
  text ≠ "" →
  start_clicked w = true →
  (load_api_key w ss).2 = Some api_key →
  events (main run w sched ss) =
    events (process_medical_report run text api_key sched) ∧
  ∃ ss', outcome (main run w sched ss) = inr ss' ∧
    (ss_medical_report ss' = Some text ∨ ss_medical_report ss' = None).
Proof.
  intros Htext Hne Hstart Hkey.
  destruct (load_api_key w ss) as [ss1 k] eqn:Hload. simpl in Hkey. subst k.
  assert (truthy (medical_report_text w) && start_clicked w = true) as Hclick.
  { rewrite Htext, Hstart, andb_true_r. by apply truthy_Some. }
  rewrite (main_analysis run w sched ss ss1 api_key text Hload);
    [|unfold after_upload; by rewrite Hclick..].
  split; [done|]. eexists. split; [done|].
  unfold after_upload. rewrite Hclick. case_match; [by right|by left].
Qed.

(** The theorem on a started session and a new text. *)
Lemma start_analyses_new_text_witness :
  events (main run_ok start_widgets [] started_session) =
    events (process_medical_report run_ok "new report" "typed" []) ∧
  ∃ ss', outcome (main run_ok start_widgets [] started_session) = inr ss' ∧
    (ss_medical_report ss' = Some "new report" ∨ ss_medical_report ss' = None).
Proof.
  apply (start_analyses_new_text run_ok start_widgets [] started_session
           "new report" "typed"); [reflexivity|discriminate|reflexivity..].
Defined.

(** ** The reset of the session *)

Lemma reset_loop_lookup {V} (keys : list string) (session : gmap string V)
    (key : string) :
  foldl (λ d key, if reset_key key then delete key d else d) session keys
    !! key =
  if reset_key key && bool_decide (key ∈ keys) then None else session !! key.
Proof.
  revert session. induction keys as [|key' keys IH]; intros session.
  - by rewrite andb_false_r.
  - cbn [foldl]. rewrite IH.
    destruct (decide (key' = key)) as [->|Hne].
    + rewrite (bool_decide_eq_true_2 (key ∈ key :: keys)) by left.
      rewrite andb_true_r.
      destruct (reset_key key); [|by rewrite andb_false_l].
      rewrite lookup_delete_eq. by case_match.
    + assert (bool_decide (key ∈ key' :: keys) = bool_decide (key ∈ keys)) as ->.
      { apply bool_decide_ext. rewrite elem_of_cons.
        split; [by intros [?|?]|by right]. }
      destruct (reset_key key'); [|done]. by rewrite lookup_delete_ne.
Qed.

Lemma reset_session_key {V} (session : gmap string V) (key : string) :
  reset_session session !! key =
  if reset_key key then None else session !! key.
Proof.
  unfold reset_session. rewrite reset_loop_lookup.
  destruct (reset_key key); [|done]. cbn [andb].
  case_bool_decide as Hk; [done|].
  destruct (session !! key) as [v|] eqn:Hv; [|done].
  exfalso. apply Hk, list_elem_of_fmap. exists (key, v).
  split; [done|]. by apply elem_of_map_to_list.
Qed.

(** X12: the loop that resets the session deletes every key that starts
    with 'analysis' and the key 'medical_report', and no other: the keys
    'analysis_started' and 'medical_report' are gone, and the key 'api_key'
    keeps its value. *)
Theorem reset_session_lookup {V} (session : gmap string V) (key : string) :
  reset_session session !! key =
    (if reset_key key then None else session !! key) ∧
  reset_session session !! "analysis_started" = None ∧
  reset_session session !! "medical_report" = None ∧
  reset_session session !! "api_key" = session !! "api_key".
Proof. split_and!; by rewrite reset_session_key. Qed.

Lemma session_dict_lookup (ss : session_state) (key : string) :
  session_dict ss !! key =
  if decide (key = "api_key") then text_value <$> ss_api_key ss
  else if decide (key = "analysis_started")
       then bool_value <$> ss_analysis_started ss
  else if decide (key = "medical_report")
       then text_value <$> ss_medical_report ss
  else None.
Proof.
  unfold session_dict.
  destruct (ss_api_key ss), (ss_analysis_started ss), (ss_medical_report ss);
    simpl; repeat case_decide; by simplify_map_eq.
Qed.

(** X13: on the session of the script the loop does what [reset_analysis]
    says: it deletes 'analysis_started' and 'medical_report' and leaves
    'api_key'. *)
Theorem reset_session_dict (ss : session_state) :
  reset_session (session_dict ss) = session_dict (reset_analysis ss).
Proof.
  apply map_eq. intros key.
  rewrite reset_session_key.
  rewrite !session_dict_lookup. unfold reset_analysis. simpl.
  repeat case_decide; subst; try done. by destruct (reset_key key).
Qed.

(** * The text of a PDF *)

Lemma string_app_nil_l (t : string) : "" +:+ t = t.
Proof. reflexivity. Qed.

Lemma string_app_cons (c : Ascii.ascii) (s t : string) :
  String c s +:+ t = String c (s +:+ t).
Proof. reflexivity. Qed.

Lemma string_app_nil_r (s : string) : s +:+ "" = s.
Proof.
  induction s as [|c s IH]; [done|]. by rewrite string_app_cons, IH.
Qed.

Lemma string_app_assoc (s t u : string) : (s +:+ t) +:+ u = s +:+ (t +:+ u).
Proof.
  induction s as [|c s IH]; [done|]. by rewrite !string_app_cons, IH.
Qed.

Lemma string_app_eq_nil (s t : string) : s +:+ t = "" → s = "" ∧ t = "".
Proof. destruct s; [done|]. by rewrite string_app_cons. Qed.

Section StripFacts.
Variable isspace : Ascii.ascii → bool.

Lemma lstrip_head (s s' : string) (c : Ascii.ascii) :
  lstrip isspace s = String c s' → isspace c = false.
Proof.
  induction s as [|a s IH]; [done|]. simpl.
  destruct (isspace a) eqn:Ha; [done|]. by intros [= <- _].
Qed.

Lemma rstrip_head (s s' : string) (c : Ascii.ascii) :
  rstrip isspace s = String c s' → ∃ s'', s = String c s''.
Proof.
  destruct s as [|a s]; [done|]. simpl.
  destruct (rstrip isspace s); [destruct (isspace a)|]; intros [=]; subst;
    by eexists.
Qed.

Lemma rstrip_last (s s' : string) (c : Ascii.ascii) :
  rstrip isspace s = s' +:+ String c "" → isspace c = false.
Proof.
  revert s'. induction s as [|a s IH]; intros s'; simpl.
  - intros H. symmetry in H. by apply string_app_eq_nil in H as [_ ?].
  - destruct (rstrip isspace s) as [|b r] eqn:Hr.
    + destruct (isspace a) eqn:Ha.
      * intros H. symmetry in H. by apply string_app_eq_nil in H as [_ ?].
      * destruct s' as [|x s'']; [by intros [= <-]|].
        rewrite string_app_cons. intros [= _ H]. symmetry in H.
        by apply string_app_eq_nil in H as [_ ?].
    + destruct s' as [|x s'']; [done|].
      rewrite string_app_cons. intros [= _ H]. by apply (IH s'').
Qed.

Lemma lstrip_blank (s : string) : blank isspace s = true → lstrip isspace s = "".
Proof.
  induction s as [|a s IH]; [done|]. simpl.
  intros [-> Hs]%andb_true_iff. by apply IH.
Qed.

Lemma blank_app (s t : string) :
  blank isspace (s +:+ t) = blank isspace s && blank isspace t.
Proof.
  induction s as [|a s IH]; [done|].
  rewrite string_app_cons. simpl. by rewrite IH, andb_assoc.
Qed.

Lemma rstrip_app (s t : string) :
  rstrip isspace t ≠ "" →
  rstrip isspace (s +:+ t) = s +:+ rstrip isspace t.
Proof.
  intros Ht. induction s as [|a s IH]; [done|].
  rewrite !string_app_cons. simpl. rewrite IH.
  destruct (s +:+ rstrip isspace t) eqn:Heq; [|done].
  by apply string_app_eq_nil in Heq as [_ ?].
Qed.

(** What the loop over the pages returns when every page gives a text. *)
Lemma extract_pages_texts (texts : list string) (text : string) :
  extract_pages (inr <$> texts) text =
  ([], inr (foldl (λ acc t, acc +:+ (t +:+ newline)) text texts)).
Proof.
  revert text. induction texts as [|t texts IH]; intros text; [done|].
  csimpl. by rewrite IH.
Qed.

(** What the loop over the pages does when a page raises. *)
Lemma extract_pages_raised (pages : list (exn + string)) (text : string)
    (e : exn) :
  first_raised_page pages = Some e →
  extract_pages pages text = ([], inl e).
Proof.
  revert text. induction pages as [|[e'|t] pages IH]; intros text Hfirst.
  - done.
  - by injection Hfirst as ->.
  - simpl. by rewrite (IH _ Hfirst).
Qed.

Lemma pages_texts_or_raised (pages : list (exn + string)) :
  (∃ texts, pages = inr <$> texts ∧ first_raised_page pages = None) ∨
  (∃ e, first_raised_page pages = Some e).
Proof.
  induction pages as [|[e|t] pages [(texts & -> & Hnone) | [e' He']]].
  - left. by exists [].
  - right. by exists e.
  - right. by exists e.
  - left. by exists (t :: texts).
  - right. by exists e'.
Qed.

(** The three ways [extract_text_from_pdf] goes. *)
Lemma extract_text_from_pdf_cases (pdf_file : pdf) :
  (∃ texts, pdf_file = inr (inr <$> texts) ∧ first_raised pdf_file = None ∧
     extract_text_from_pdf isspace pdf_file =
     ([], inr (Some (strip isspace
                       (foldl (λ acc t, acc +:+ (t +:+ newline)) "" texts))))) ∨
  (∃ e, first_raised pdf_file = Some e ∧ is_Exception e = true ∧
     extract_text_from_pdf isspace pdf_file =
     ([ev_error (reading_error_text e)], inr None)) ∨
  (∃ e, first_raised pdf_file = Some e ∧ is_Exception e = false ∧
     extract_text_from_pdf isspace pdf_file = ([], inl e)).
Proof.
  unfold extract_text_from_pdf, external.
  destruct pdf_file as [e|pages].
  - right. destruct (is_Exception e) eqn:He; [left|right]; exists e;
      (split; [done|]); (split; [done|]); simpl; by rewrite He.
  - rewrite bind_unfold. cbn [outcome events fst snd first_raised].
    destruct (pages_texts_or_raised pages) as [(texts & -> & Hnone) | [e He]].
    + left. exists texts. split_and!; [done..|].
      by rewrite bind_unfold, extract_pages_texts.
    + right. rewrite bind_unfold, (extract_pages_raised pages "" e He).
      destruct (is_Exception e) eqn:Hexc; [left|right]; exists e;
        (split; [done|]); (split; [done|]); simpl; by rewrite Hexc.
Qed.

(** X14: when nothing is raised while the PDF is read,
    [extract_text_from_pdf] returns a text and reports nothing; when the
    first exception raised, by the reader or by a page, is an instance of
    [Exception], it returns [None] and reports that exception with one call
    of [st.error]; an exception that is no instance of [Exception] is not
    handled: it leaves the function, and nothing is reported. *)
Theorem extract_text_from_pdf_failure (pdf_file : pdf) :
  let p := extract_text_from_pdf isspace pdf_file in
  (first_raised pdf_file = None → ∃ text, p = ([], inr (Some text))) ∧
  (∀ e, first_raised pdf_file = Some e → is_Exception e = true →
        p = ([ev_error ("Error reading PDF file: " +:+ exn_str e)], inr None)) ∧
  (∀ e, first_raised pdf_file = Some e → is_Exception e = false →
        p = ([], inl e)) ∧
  (outcome p = inr None ↔
   ∃ e, first_raised pdf_file = Some e ∧ is_Exception e = true) ∧
  (first_raised pdf_file = None ↔
   ∃ texts, pdf_file = inr (inr <$> texts)).
Proof.
  assert (first_raised pdf_file = None ↔
          ∃ texts, pdf_file = inr (inr <$> texts)) as Htexts.
  { destruct pdf_file as [e|pages]; simpl.
    - split; [done|by intros [? ?]].
    - destruct (pages_texts_or_raised pages) as [(texts & -> & Hn) | [e He]].
      + split; [by exists texts|done].
      + split; [congruence|]. intros [texts [= ->]].
        clear -He. induction texts; simpl in He; [done|auto]. }
  destruct (extract_text_from_pdf_cases pdf_file)
    as [(texts & _ & Hnone & Hp) | [(e & He & Hexc & Hp) | (e & He & Hexc & Hp)]];
    rewrite Hp; cbn [outcome events fst snd].
  - split_and!; [by eexists|congruence..| |done].
    split; [done|]. intros (e & He & _). congruence.
  - split_and!; [congruence| | | |done].
    + intros e' He' _. by simplify_eq.
    + intros e' He' Hexc'. simplify_eq. congruence.
    + split; [by eauto|done].
  - split_and!; [congruence| | | |done].
    + intros e' He' Hexc'. simplify_eq. congruence.
    + intros e' He' _. by simplify_eq.
    + split; [done|]. intros (e' & He' & Hexc'). simplify_eq. congruence.
Qed.

(** X15: the text [extract_text_from_pdf] returns is stripped: it neither
    begins nor ends with a white-space character, so the line feed added
    after the last page is never part of it. *)
Theorem extract_text_from_pdf_stripped (pdf_file : pdf) (text : string) :
  outcome (extract_text_from_pdf isspace pdf_file) = inr (Some text) →
  (∀ c s, text = String c s → isspace c = false) ∧
  (∀ s c, text = s +:+ String c "" → isspace c = false).
Proof.
  unfold extract_text_from_pdf, external.
  destruct pdf_file as [e|pages]; [simpl; by destruct (is_Exception e)|].
  rewrite bind_unfold. cbn [outcome events fst snd].
  destruct (pages_texts_or_raised pages) as [(texts & -> & _) | [e He]].
  2:{ rewrite bind_unfold, (extract_pages_raised pages "" e He). simpl.
      by destruct (is_Exception e). }
  rewrite bind_unfold, extract_pages_texts. simpl. intros [= <-].
  unfold strip. split.
  - intros c s Hs. destruct (rstrip_head _ _ _ Hs) as [s'' Hl].
    by apply lstrip_head in Hl.
  - intros s c Hs. by apply rstrip_last in Hs.
Qed.

Hypothesis isspace_newline : isspace (Ascii.ascii_of_nat 10) = true.

Lemma blank_pages (texts : list string) (text : string) :
  blank isspace text = true →
  Forall (λ t, blank isspace t = true) texts →
  blank isspace (foldl (λ acc t, acc +:+ (t +:+ newline)) text texts) = true.
Proof.
  revert text. induction texts as [|t texts IH]; intros text Htext Hall;
    [done|].
  apply Forall_cons in Hall as [Ht Hall]. simpl. apply IH; [|done].
  rewrite !blank_app, Htext, Ht. simpl. by rewrite isspace_newline.
Qed.

(** X16: a PDF without text (no page, or pages whose text is white space
    only, as scanned pages give) yields the empty text, and nothing is
    reported. *)
Theorem extract_text_from_pdf_blank (texts : list string) :
  Forall (λ t, blank isspace t = true) texts →
  extract_text_from_pdf isspace (inr (inr <$> texts)) = ([], inr (Some "")).
Proof.
  intros Hall. unfold extract_text_from_pdf, external.
  rewrite bind_unfold. cbn [outcome events fst snd].
  rewrite bind_unfold, extract_pages_texts. simpl.
  unfold strip. by rewrite (lstrip_blank _ (blank_pages texts "" eq_refl Hall)).
Qed.

Lemma pages_concat (texts : list string) (text : string) :
  texts ≠ [] →
  foldl (λ acc t, acc +:+ (t +:+ newline)) text texts =
  text +:+ (String.concat newline texts +:+ newline).
Proof.
  revert text. induction texts as [|t [|t' texts] IH]; intros text Hne;
    [done..|].
  change (foldl ?f text (t :: ?l)) with (foldl f (f text t) l).
  rewrite IH by done.
  change (String.concat newline (t :: t' :: texts))
    with (t +:+ (newline +:+ String.concat newline (t' :: texts))).
  by rewrite !string_app_assoc.
Qed.

Lemma concat_head (texts : list string) (c : Ascii.ascii) (s : string) :
  head texts = Some (String c s) →
  ∃ s', String.concat newline texts = String c s'.
Proof.
  destruct texts as [|t [|t' texts]]; intros [= ->]; by eexists.
Qed.

Lemma concat_last (texts : list string) (c : Ascii.ascii) (s : string) :
  last texts = Some (s +:+ String c "") →
  ∃ s', String.concat newline texts = s' +:+ String c "".
Proof.
  induction texts as [|t [|t' texts] IH]; [done|by intros [= ->]; eexists|].
  intros Hlast. destruct IH as [s' Hs']; [done|].
  exists (t +:+ (newline +:+ s')).
  change (String.concat newline (t :: t' :: texts))
    with (t +:+ (newline +:+ String.concat newline (t' :: texts))).
  by rewrite Hs', !string_app_assoc.
Qed.

(** X17: when the text of the first page begins and the text of the last
    page ends with a character that is not white space, the text returned
    is the texts of the pages joined by line feeds. *)
Theorem extract_text_from_pdf_join (texts : list string)
    (c d : Ascii.ascii) (s s' : string) :
  head texts = Some (String c s) → isspace c = false →
  last texts = Some (s' +:+ String d "") → isspace d = false →
  extract_text_from_pdf isspace (inr (inr <$> texts)) =
  ([], inr (Some (String.concat newline texts))).
Proof.
  intros Hhead Hc Hlast Hd. unfold extract_text_from_pdf, external.
  rewrite bind_unfold. cbn [outcome events fst snd].
  rewrite bind_unfold, extract_pages_texts. simpl.
  rewrite pages_concat by by destruct texts. rewrite string_app_nil_l.
  do 3 f_equal. unfold strip.
  destruct (concat_head _ _ _ Hhead) as [u Hu].
  destruct (concat_last _ _ _ Hlast) as [v Hv].
  assert (lstrip isspace (String.concat newline texts +:+ newline) =
          String.concat newline texts +:+ newline) as ->.
  { rewrite Hu, string_app_cons. simpl. by rewrite Hc. }
  rewrite Hv, string_app_assoc.
  assert (rstrip isspace (String d "" +:+ newline) = String d "") as Hr.
  { unfold newline. rewrite string_app_cons, string_app_nil_l. simpl.
    by rewrite isspace_newline, Hd. }
  rewrite rstrip_app; by rewrite Hr.
Qed.

End StripFacts.

(** The theorems on PDFs of two pages, with the white space of ASCII. *)
Lemma extract_text_from_pdf_stripped_witness :
  (∀ c s, "Patient: A." +:+ newline +:+ "Heart rate 110" = String c s →
          ascii_space c = false) ∧
  (∀ s c, "Patient: A." +:+ newline +:+ "Heart rate 110" = s +:+ String c "" →
          ascii_space c = false).
Proof.
  apply (extract_text_from_pdf_stripped ascii_space pdf_two_pages).
  reflexivity.
Defined.

Lemma extract_text_from_pdf_blank_witness :
  extract_text_from_pdf ascii_space pdf_blank = ([], inr (Some "")).
Proof.
  apply (extract_text_from_pdf_blank ascii_space eq_refl [""; "  "]).
  repeat constructor.
Defined.

Lemma extract_text_from_pdf_join_witness :
  extract_text_from_pdf ascii_space pdf_two_pages =
  ([], inr (Some (String.concat newline ["Patient: A."; "Heart rate 110"]))).
Proof.
  eapply (extract_text_from_pdf_join ascii_space eq_refl
            ["Patient: A."; "Heart rate 110"] _ _ _ "Heart rate 11");
    reflexivity.
Defined.

(** * The page with the upload *)

Section PageFacts.
Variable run : Agent → run_result.
Variable isspace : Ascii.ascii → bool.
Variables (uploaded_file : option upload) (w : widgets) (sched : list nat).
Variable ss : session_state.

Lemma load_api_key_with_text (text : pytext) :
  load_api_key (with_text w text) ss = load_api_key w ss.
Proof. done. Qed.

(** With a key, [main] with the upload reads the upload and goes on as
    [main] does on the text read; without one it does not read it. *)
Lemma main_page_main :
  main_page run isspace uploaded_file w sched ss =
  match (load_api_key w ss).2 with
  | Some _ =>
      read_uploaded_file isspace uploaded_file ≫=
        λ text, main run (with_text w text) sched ss
  | None => main run w sched ss
  end.
Proof.
  unfold main_page.
  pose proof (load_api_key_spec w ss) as Hspec.
  destruct (load_api_key w ss) as [ss1 [api_key|]] eqn:Hload.
  2:{ unfold main. by rewrite Hload. }
  destruct Hspec as (_ & _ & Hne). specialize (Hne _ eq_refl).
  cbn [snd]. rewrite (proj2 (truthy_Some api_key) Hne). cbn [negb].
  rewrite !bind_unfold.
  destruct (outcome (read_uploaded_file isspace uploaded_file)) as [e|text];
    [done|].
  unfold main at 1 2. rewrite load_api_key_with_text, Hload.
  rewrite (proj2 (truthy_Some api_key) Hne). cbn [negb]. reflexivity.
Qed.

End PageFacts.

(** X18: a text file that is not valid UTF-8 makes [main] raise the
    decoding error: with a key, the file is decoded outside any [try], no
    agent is built, and nothing is reported. *)
Theorem undecodable_text_raises (run : Agent → run_result)
    (isspace : Ascii.ascii → bool) (file : upload) (w : widgets)
    (sched : list nat) (ss : session_state) (e : exn) (api_key : string) :
  file_type file = "text/plain" →
  file_utf8 file = inl e →
  (load_api_key w ss).2 = Some api_key →
  main_page run isspace (Some file) w sched ss = ([], inl e).
Proof.
  intros Htype Hutf8 Hkey. rewrite main_page_main, Hkey.
  unfold read_uploaded_file, external. rewrite Htype, Hutf8. done.
Qed.

(** The theorem on a file of bytes that are no UTF-8. *)
Lemma undecodable_text_raises_witness :
  main_page run_ok ascii_space (Some upload_no_utf8) idle_widgets []
    empty_session =
  ([], inl (Exception "invalid start byte")).
Proof.
  apply (undecodable_text_raises run_ok ascii_space upload_no_utf8
           idle_widgets [] empty_session _ "key"); reflexivity.
Defined.

(** X19: when the upload gives no text (no file, a type other than text
    and PDF, a PDF that cannot be read or has no text, an empty text file),
    a run of [main] on a session without a started analysis calls no agent
    and starts no analysis, whatever is clicked; its only events are those
    of reading the upload. *)
Theorem no_text_no_analysis (run : Agent → run_result)
    (isspace : Ascii.ascii → bool) (uploaded_file : option upload)
    (w : widgets) (sched : list nat) (ss : session_state) (text : pytext) :
  outcome (read_uploaded_file isspace uploaded_file) = inr text →
  truthy text = false →
  ss_analysis_started ss ≠ Some true →
  let p := main_page run isspace uploaded_file w sched ss in
  runs (events p) = [] ∧ inits (events p) = [] ∧
  (events p = [] ∨ events p = events (read_uploaded_file isspace uploaded_file)) ∧
  ∃ ss', outcome p = inr ss' ∧
         ss_analysis_started ss' = ss_analysis_started ss.
Proof.
  intros Hread Htext Hidle p. subst p. rewrite main_page_main.
  pose proof (load_api_key_spec w ss) as Hspec.
  destruct (load_api_key w ss) as [ss1 [api_key|]] eqn:Hload; cbn [snd].
  - destruct Hspec as (Hs & _).
    rewrite bind_unfold, Hread.
    rewrite (main_idle run (with_text w text) sched ss ss1 api_key);
      [|done|unfold after_upload; simpl; rewrite Htext; simpl; congruence].
    cbn [events outcome fst snd]. rewrite app_nil_r.
    assert (runs (events (read_uploaded_file isspace uploaded_file)) = [] ∧
            inits (events (read_uploaded_file isspace uploaded_file)) = [])
      as [-> ->].
    { unfold read_uploaded_file, external.
      destruct uploaded_file as [file|]; [|done].
      repeat case_decide; [by destruct (file_utf8 file)| |done].
      by destruct (extract_text_from_pdf_cases isspace (file_pdf file))
        as [(texts & _ & _ & ->) | [(e & _ & _ & ->) | (e & _ & _ & ->)]]. }
    split_and!; [done..|by right|].
    eexists. split; [done|]. unfold after_upload. simpl.
    by rewrite Htext.
  - destruct Hspec as (Hs & _).
    rewrite (main_no_key run w sched ss ss1 Hload).
    split_and!; [done..|by left|]. by eexists.
Qed.

(** The theorem on a PDF whose second page cannot be read, with the
    start button clicked. *)
Lemma no_text_no_analysis_witness :
  let p := main_page run_ok ascii_space (Some upload_broken_pdf) start_widgets
             [1]%nat empty_session in
  runs (events p) = [] ∧ inits (events p) = [] ∧
  (events p = [] ∨
   events p = events (read_uploaded_file ascii_space (Some upload_broken_pdf))) ∧
  ∃ ss', outcome p = inr ss' ∧
         ss_analysis_started ss' = ss_analysis_started empty_session.
Proof.
  apply (no_text_no_analysis run_ok ascii_space (Some upload_broken_pdf)
           start_widgets [1]%nat empty_session None);
    [reflexivity|reflexivity|discriminate].
Defined.

Lemma read_text_silent (isspace : Ascii.ascii → bool)
    (uploaded_file : option upload) (text : string) :
  outcome (read_uploaded_file isspace uploaded_file) = inr (Some text) →
  events (read_uploaded_file isspace uploaded_file) = [].
Proof.
  unfold read_uploaded_file, external.
  destruct uploaded_file as [file|]; [|done].
  repeat case_decide; [by destruct (file_utf8 file)| |done].
  by destruct (extract_text_from_pdf_cases isspace (file_pdf file))
    as [(texts & _ & _ & ->) | [(e & _ & _ & ->) | (e & _ & _ & ->)]].
Qed.

(** X20: when the upload gives a non-empty text and the start button is
    clicked, [main] has that very text analysed in the same run, with the
    key of the run: the events of the run are those of
    [process_medical_report] on the text. *)
Theorem upload_start_analyses (run : Agent → run_result)
    (isspace : Ascii.ascii → bool) (uploaded_file : option upload)
    (w : widgets) (sched : list nat) (ss : session_state)
    (text api_key : string) :
  outcome (read_uploaded_file isspace uploaded_file) = inr (Some text) →
  text ≠ "" →
  start_clicked w = true →
  (load_api_key w ss).2 = Some api_key →
  events (main_page run isspace uploaded_file w sched ss) =
  events (process_medical_report run text api_key sched).
Proof.
  intros Hread Hne Hstart Hkey. rewrite main_page_main, Hkey.
  rewrite bind_unfold, Hread, (read_text_silent _ _ _ Hread).
  destruct (load_api_key w ss) as [ss1 k] eqn:Hload. simpl in Hkey. subst k.
  assert (truthy (Some text) && start_clicked w = true) as Hclick.
  { rewrite Hstart, andb_true_r. by apply truthy_Some. }
  rewrite (main_analysis run (with_text w (Some text)) sched ss ss1
             api_key text);
    [done|done|unfold after_upload;
               cbn [with_text medical_report_text start_clicked];
               by rewrite Hclick..].
Qed.

(** The theorem on an uploaded text file. *)
Lemma upload_start_analyses_witness :
  events (main_page run_ok ascii_space (Some upload_text) start_widgets [2]%nat
            empty_session) =
  events (process_medical_report run_ok "new report" "typed" [2]%nat).
Proof.
  apply (upload_start_analyses run_ok ascii_space (Some upload_text)
           start_widgets [2]%nat empty_session "new report" "typed");
    [reflexivity|discriminate|reflexivity..].
Defined.

(** X21: when the team returns the empty text, [process_medical_report]
    ends in success, yet [main] takes the result for absent: a click on
    'Analyze Another Report' resets nothing, and the analysis stays
    started on the same report. *)
Theorem empty_diagnosis_not_shown (run : Agent → run_result) (w : widgets)
    (sched : list nat) (ss : session_state)
    (medical_report api_key a b c : string) :
  run (Cardiologist medical_report api_key) = Returns (Some a) →
  run (Psychologist medical_report api_key) = Returns (Some b) →
  run (Pulmonologist medical_report api_key) = Returns (Some c) →
  run (MultidisciplinaryTeam (Some a) (Some b) (Some c) api_key) =
    Returns (Some "") →
  ss_analysis_started ss = Some true →
  ss_medical_report ss = Some medical_report →
  (load_api_key w ss).2 = Some api_key →
  truthy (medical_report_text w) && start_clicked w = false →
  is_success
    (outcome (process_medical_report run medical_report api_key sched)) ∧
  ∃ ss', outcome (main run w sched ss) = inr ss' ∧
         ss_analysis_started ss' = Some true ∧
         ss_medical_report ss' = Some medical_report.
Proof.
  intros Ha Hb Hc Hteam Hstarted Hreport Hkey Hstart.
  assert (∃ responses,
            expected_return run medical_report api_key =
            (Some responses, Some "")) as [responses Hret].
  { unfold expected_return, team_ret. rewrite Ha, Hb, Hc, Hteam. by eexists. }
  split; [rewrite process_outcome, Hret; by eexists _, _|].
  destruct (load_api_key w ss) as [ss1 k] eqn:Hload. simpl in Hkey. subst k.
  pose proof (load_api_key_spec w ss) as Hspec. rewrite Hload in Hspec.
  destruct Hspec as (Hs & Hr & _).
  assert (after_upload w ss1 = ss1) as Hup
    by (unfold after_upload; by rewrite Hstart).
  rewrite (main_analysis run w sched ss ss1 api_key medical_report Hload);
    [|rewrite Hup; congruence..].
  rewrite Hret, Hup. unfold shown. simpl. rewrite andb_false_r. simpl.
  eexists. split; [done|]. split; congruence.
Qed.

(** The theorem on a started session, with the button clicked. *)
Lemma empty_diagnosis_not_shown_witness :
  is_success
    (outcome (process_medical_report run_empty_diagnosis "report" "key" [])) ∧
  ∃ ss', outcome (main run_empty_diagnosis again_widgets [] started_session)
           = inr ss' ∧
         ss_analysis_started ss' = Some true ∧
         ss_medical_report ss' = Some "report".
Proof.
  apply (empty_diagnosis_not_shown run_empty_diagnosis again_widgets []
           started_session "report" "key" "heart" "mind" "lungs");
    reflexivity.
Defined.

(** * A run of the page: the key, the upload, the analysis *)

(** ** Without a key *)

(** X8: without a key (none in the environment, none typed) [main] returns
    before it reads the upload or calls [process_medical_report]: no agent
    is built or run, no progress value is set, [st.error] is not called,
    and the session is left as it is, whatever was uploaded or clicked and
    whether or not an analysis was started. *)
Theorem no_key_no_analysis (run : Agent → run_result)
    (isspace : Ascii.ascii → bool) (uploaded_file : option upload)
    (w : widgets) (sched : list nat) (ss : session_state) :
  truthy (env_api_key w) = false →
  typed_api_key w = "" →
  let p := main_page run isspace uploaded_file w sched ss in
  inits (events p) = [] ∧ runs (events p) = [] ∧
  progress_values (events p) = [] ∧ errors (events p) = [] ∧
  outcome p = inr ss.
Proof.
  intros Henv Htyped p. subst p.
  assert (load_api_key w ss = (ss, None)) as Hload.
  { unfold load_api_key. by rewrite Henv, Htyped. }
  rewrite main_page_main, Hload. cbn [snd].
  by rewrite (main_no_key run w sched ss ss Hload).
Qed.

(** The theorem on a started session, with an empty key in the
    environment, a file that is no UTF-8 and every button clicked. *)
Lemma no_key_no_analysis_witness :
  let p := main_page run_ok ascii_space (Some upload_no_utf8) no_key_widgets
             [2]%nat started_session in
  inits (events p) = [] ∧ runs (events p) = [] ∧
  progress_values (events p) = [] ∧ errors (events p) = [] ∧
  outcome p = inr started_session.
Proof.
  apply (no_key_no_analysis run_ok ascii_space (Some upload_no_utf8)
           no_key_widgets [2]%nat started_session); reflexivity.
Defined.

(** ** With a started analysis *)

(** X9: once an analysis is started, a later run of [main] with a key
    first reads the upload.  When the reading raises, [main] raises the
    same after the events of the reading, and no agent is run.  When it
    returns a text, and unless the start button is clicked on a non-empty
    text, [process_medical_report] is called again, on the report stored in
    the session and with the key of that run: the text read is not
    analysed. *)
Theorem started_analysis_reruns (run : Agent → run_result)
    (isspace : Ascii.ascii → bool) (uploaded_file : option upload)
    (w : widgets) (sched : list nat) (ss : session_state)
    (medical_report api_key : string) :
  ss_analysis_started ss = Some true →
  ss_medical_report ss = Some medical_report →
  (load_api_key w ss).2 = Some api_key →
  let reading := read_uploaded_file isspace uploaded_file in
  let p := main_page run isspace uploaded_file w sched ss in
  (∀ e, outcome reading = inl e → p = (events reading, inl e)) ∧
  (∀ text, outcome reading = inr text →
     truthy text && start_clicked w = false →
     events p =
     events reading ++
     events (process_medical_report run medical_report api_key sched)).
Proof.
  intros Hstarted Hreport Hkey reading p. subst reading p.
  rewrite main_page_main, Hkey, bind_unfold.
  split; [by intros e ->|]. intros text -> Hstart.
  destruct (load_api_key w ss) as [ss1 k] eqn:Hload. simpl in Hkey. subst k.
  pose proof (load_api_key_spec w ss) as Hspec. rewrite Hload in Hspec.
  destruct Hspec as (Hs & Hr & _).
  rewrite (main_analysis run (with_text w text) sched ss ss1 api_key
             medical_report Hload);
    [done|unfold after_upload; simpl; rewrite Hstart; congruence..].
Qed.

(** The theorem on a started session, with another text uploaded and the
    start button not clicked. *)
Lemma started_analysis_reruns_witness :
  let reading := read_uploaded_file ascii_space (Some upload_text) in
  let p := main_page run_ok ascii_space (Some upload_text) idle_widgets
             [1]%nat started_session in
  (∀ e, outcome reading = inl e → p = (events reading, inl e)) ∧
  (∀ text, outcome reading = inr text →
     truthy text && start_clicked idle_widgets = false →
     events p =
     events reading ++
     events (process_medical_report run_ok "report" "key" [1]%nat)).
Proof.
  apply (started_analysis_reruns run_ok ascii_space (Some upload_text)
           idle_widgets [1]%nat started_session "report" "key");
    reflexivity.
Defined.

(** ** The reset *)

(** A run of [main] that ends a started analysis: the button was clicked
    after the call of this run returned a result. *)
Lemma main_reset (run : Agent → run_result) (w : widgets) (sched : list nat)
    (ss ss' : session_state) :
  ss_analysis_started ss = Some true →
  outcome (main run w sched ss) = inr ss' →
  ss_analysis_started ss' ≠ Some true →
  again_clicked w = true ∧
  ∃ ss1 api_key medical_report responses final_diagnosis,
    load_api_key w ss = (ss1, Some api_key) ∧
    ss_medical_report (after_upload w ss1) = Some medical_report ∧
    events (main run w sched ss) =
      events (process_medical_report run medical_report api_key sched) ∧
    outcome (process_medical_report run medical_report api_key sched) =
      inr (Some responses, Some final_diagnosis) ∧
    responses ≠ ∅ ∧ final_diagnosis ≠ "" ∧
    ss' = reset_analysis (after_upload w ss1) ∧
    ss_api_key ss' = Some api_key.
Proof.
  intros Hstarted Hmain Hreset.
  destruct (load_api_key w ss) as [ss1 [api_key|]] eqn:Hload.
  2:{ rewrite (main_no_key run w sched ss ss1 Hload) in Hmain.
      pose proof (load_api_key_spec w ss) as Hspec. rewrite Hload in Hspec.
      destruct Hspec as (Hs & _). simplify_eq/=. congruence. }
  pose proof (load_api_key_stored w ss ss1 api_key Hload) as Hkey.
  pose proof (load_api_key_spec w ss) as Hspec. rewrite Hload in Hspec.
  destruct Hspec as (Hs & _ & Hk).
  assert (ss_analysis_started (after_upload w ss1) = Some true) as Hs2.
  { unfold after_upload. case_match; [done|congruence]. }
  assert (ss_api_key (after_upload w ss1) = Some api_key) as Hk2.
  { unfold after_upload. by case_match. }
  destruct (ss_medical_report (after_upload w ss1)) as [report|] eqn:Hr2.
  2:{ unfold main in Hmain. rewrite Hload in Hmain.
      rewrite (proj2 (truthy_Some api_key) (Hk _ eq_refl)) in Hmain.
      cbn [negb] in Hmain. fold (after_upload w ss1) in Hmain.
      by rewrite Hs2, Hr2 in Hmain. }
  pose proof (main_analysis run w sched ss ss1 api_key report Hload Hs2 Hr2)
    as Heq.
  rewrite Heq in Hmain |- *. cbn [events outcome fst snd] in Hmain |- *.
  destruct (shown (expected_return run report api_key)) eqn:Hshown;
    [|simplify_eq/=; congruence].
  destruct (again_clicked w); [|simplify_eq/=; congruence].
  simplify_eq/=. split; [done|].
  unfold shown in Hshown. apply andb_true_iff in Hshown as [Hresp Hdiag].
  apply bool_decide_eq_true in Hresp as [Hsome Hne].
  destruct (expected_return run report api_key)
    as [[responses|] [final_diagnosis|]] eqn:Hret; simpl in *; try done.
  exists ss1, api_key, report, responses, final_diagnosis.
  rewrite process_outcome, Hret. split_and!; try done.
  - intros ->. by apply Hne.
  - by apply truthy_Some.
Qed.

(** X11: a started analysis is reset only by a click on 'Analyze Another
    Report' in a run of [main] whose own call of [process_medical_report]
    returned a non-empty mapping and a non-empty diagnosis.  The call of the
    run is the one on the key of the run and on the text read from the
    upload, if the start button was clicked on a non-empty text, and on the
    report of the session otherwise; the events of the run are those of the
    reading and of this call.  Then the two keys of the analysis are
    deleted and the key 'api_key' is kept. *)
Theorem reset_only_after_result (run : Agent → run_result)
    (isspace : Ascii.ascii → bool) (uploaded_file : option upload)
    (w : widgets) (sched : list nat) (ss ss' : session_state) :
  ss_analysis_started ss = Some true →
  outcome (main_page run isspace uploaded_file w sched ss) = inr ss' →
  ss_analysis_started ss' ≠ Some true →
  again_clicked w = true ∧
  (∃ text medical_report api_key responses final_diagnosis,
     outcome (read_uploaded_file isspace uploaded_file) = inr text ∧
     (load_api_key w ss).2 = Some api_key ∧
     Some medical_report =
       (if truthy text && start_clicked w then text
        else ss_medical_report ss) ∧
     events (main_page run isspace uploaded_file w sched ss) =
       events (read_uploaded_file isspace uploaded_file) ++
       events (process_medical_report run medical_report api_key sched) ∧
     outcome (process_medical_report run medical_report api_key sched) =
       inr (Some responses, Some final_diagnosis) ∧
     responses ≠ ∅ ∧ final_diagnosis ≠ "" ∧
     ss_api_key ss' = Some api_key) ∧
  ss_analysis_started ss' = None ∧ ss_medical_report ss' = None.
Proof.
  intros Hstarted Hmain Hreset. revert Hmain. rewrite main_page_main.
  pose proof (load_api_key_spec w ss) as Hspec.
  destruct (load_api_key w ss) as [ss0 [key|]] eqn:Hload0; cbn [snd].
  2:{ rewrite (main_no_key run w sched ss ss0 Hload0).
      destruct Hspec as (Hs & _). intros [= <-]. congruence. }
  destruct Hspec as (_ & Hr & _).
  rewrite bind_unfold.
  destruct (outcome (read_uploaded_file isspace uploaded_file))
    as [e|text] eqn:Hread; [done|].
  cbn [outcome events fst snd]. intros Hmain.
  destruct (main_reset run (with_text w text) sched ss ss' Hstarted Hmain Hreset)
    as (Hagain & ss1 & api_key & report & responses & final_diagnosis &
        Hload & Hreport & Hevents & Hout & Hne & Hdiag & -> & Hkey).
  rewrite load_api_key_with_text, Hload0 in Hload. simplify_eq.
  split_and!; [done| |done..].
  exists text, report, api_key, responses, final_diagnosis.
  split_and!; try done.
  - rewrite <-Hreport. unfold after_upload. simpl.
    by destruct (truthy text && start_clicked w).
  - by rewrite Hevents.
Qed.

(** The theorem on a started session after whose analysis the button is
    clicked. *)
Lemma reset_only_after_result_witness :
  let ss' := {| ss_api_key := Some "key"; ss_analysis_started := None;
                ss_medical_report := None |} in
  again_clicked again_widgets = true ∧
  (∃ text medical_report api_key responses final_diagnosis,
     outcome (read_uploaded_file ascii_space None) = inr text ∧
     (load_api_key again_widgets started_session).2 = Some api_key ∧
     Some medical_report =
       (if truthy text && start_clicked again_widgets then text
        else ss_medical_report started_session) ∧
     events (main_page run_ok ascii_space None again_widgets []
               started_session) =
       events (read_uploaded_file ascii_space None) ++
       events (process_medical_report run_ok medical_report api_key []) ∧
     outcome (process_medical_report run_ok medical_report api_key []) =
       inr (Some responses, Some final_diagnosis) ∧
     responses ≠ ∅ ∧ final_diagnosis ≠ "" ∧
     ss_api_key ss' = Some api_key) ∧
  ss_analysis_started ss' = None ∧ ss_medical_report ss' = None.
Proof.
  apply (reset_only_after_result run_ok ascii_space None again_widgets []
           started_session).
  - reflexivity.
  - vm_compute. reflexivity.
  - discriminate.
Defined.
